(** * Pagination templates (FastAPI): cursor and offset pagination

    Shallow embedding of
    [templates/skills/api-pagination/templates/fastapi/cursor_pagination.py]
    and [offset_pagination.py], followed by the properties of the cursor
    codec, the cursor pager, the offset calculator and the offset pager. *)

From Stdlib Require Import ZArith NArith List String Ascii Bool Lia.
From Stdlib Require Import DecimalString DecimalPos Sorted.
Import ListNotations.

Set Implicit Arguments.

(** ** Python values, exceptions and a small error monad *)

Module Py.

(** The exceptions of the embedded paths: the codec's
    ([str.encode], [b64decode], [bytes.decode]) and those of
    [total_items / limit].  What a driver raises for a parameter it
    cannot bind, and the ValueError of [str] on an [int] of more than
    4300 digits, are not among them: the statements that depend on it
    keep keys and limits to 64 bits. *)
Inductive exn : Set :=
| UnicodeEncodeError
| UnicodeDecodeError
| BinasciiError
| ZeroDivisionError
| OverflowError.

Inductive result (A : Type) : Type :=
| Ok (a : A)
| Raise (e : exn).
Arguments Ok {A} a.
Arguments Raise {A} e.

Definition bind {A B} (m : result A) (k : A -> result B) : result B :=
  match m with
  | Ok a => k a
  | Raise e => Raise e
  end.

Definition fmap {A B} (f : A -> B) (m : result A) : result B :=
  bind m (fun a => Ok (f a)).

(** [try: m except Exception: d] *)
Definition try_except {A} (m : result A) (d : A) : A :=
  match m with
  | Ok a => a
  | Raise _ => d
  end.

(** [bytes]: a sequence of 8-bit values. *)
Definition bytes := list ascii.

(** [str]: a sequence of Unicode code points (each at most 0x10FFFF in
    any string Python builds; lone surrogates are possible). *)
Definition str := list N.

Definition bytes_lit (s : string) : bytes := list_ascii_of_string s.
Definition str_lit (s : string) : str := map N_of_ascii (list_ascii_of_string s).

(** The key values the pager meets: integer and text columns. *)
Inductive value : Type :=
| VInt (z : Z)
| VStr (s : str).

(** [str(value)]: decimal digits for an [int], the string itself for a
    [str].  The interpreter converts an [int] of up to 4300 digits, and
    so every key of an INTEGER column; beyond that it raises, which
    [str_of_int] does not. *)
Definition str_of_int (z : Z) : str :=
  str_lit (NilZero.string_of_int (Z.to_int z)).

Definition str_of (v : value) : str :=
  match v with
  | VInt z => str_of_int z
  | VStr s => s
  end.

Definition str_eqb (s t : str) : bool :=
  if list_eq_dec N.eq_dec s t then true else false.

(** [a == b]: values of different types are never equal. *)
Definition eqb (a b : value) : bool :=
  match a, b with
  | VInt x, VInt y => Z.eqb x y
  | VStr s, VStr t => str_eqb s t
  | _, _ => false
  end.

(** Truthiness, as [if x:] tests it. *)
Definition truthy_str (s : str) : bool :=
  match s with [] => false | _ :: _ => true end.

Definition truthy_opt_str (o : option str) : bool :=
  match o with None => false | Some s => truthy_str s end.

(** [l[:n]]: a negative bound counts from the end. *)
Definition slice_to {A} (l : list A) (n : Z) : list A :=
  if (0 <=? n)%Z then firstn (Z.to_nat n) l
  else firstn (List.length l - Z.to_nat (- n)) l.

(** [len(l)] *)
Definition len {A} (l : list A) : Z := Z.of_nat (List.length l).

End Py.

Notation "x <- m ;; k" := (Py.bind m (fun x => k))
  (at level 61, m at next level, right associativity).

(** ** UTF-8, as [str.encode()] and [bytes.decode()] use it (strict) *)

Module Utf8.
Import Py.
Local Open Scope N_scope.

Definition byte (n : N) : ascii := ascii_of_N n.

Definition is_surrogate (c : N) : bool := (0xD800 <=? c) && (c <=? 0xDFFF).

(** The code points UTF-8 can carry: Unicode scalar values. *)
Definition scalar_value (c : N) : bool :=
  (c <? 0x110000) && negb (is_surrogate c).

Definition encodable (s : str) : bool := forallb scalar_value s.

Definition encode_char (c : N) : result bytes :=
  if c <? 0x80 then Ok [byte c]
  else if c <? 0x800 then
    Ok [byte (0xC0 + c / 64); byte (0x80 + c mod 64)]
  else if c <? 0x10000 then
    if is_surrogate c then Raise UnicodeEncodeError
    else Ok [byte (0xE0 + c / 4096); byte (0x80 + (c / 64) mod 64);
             byte (0x80 + c mod 64)]
  else if c <? 0x110000 then
    Ok [byte (0xF0 + c / 262144); byte (0x80 + (c / 4096) mod 64);
        byte (0x80 + (c / 64) mod 64); byte (0x80 + c mod 64)]
  else Raise UnicodeEncodeError.

(** [s.encode()] *)
Fixpoint encode (s : str) : result bytes :=
  match s with
  | [] => Ok []
  | c :: s' =>
      b <- encode_char c ;;
      bs <- encode s' ;;
      Ok (b ++ bs)
  end.

Definition is_cont (b : ascii) : bool :=
  let n := N_of_ascii b in (0x80 <=? n) && (n <? 0xC0).

Definition cont (b : ascii) : N := N_of_ascii b - 0x80.

(** [b.decode()]: rejects stray continuation bytes, truncated and
    overlong sequences, surrogates and values above 0x10FFFF. *)
Fixpoint decode (bs : bytes) : result str :=
  match bs with
  | [] => Ok []
  | b0 :: r0 =>
      let n0 := N_of_ascii b0 in
      if n0 <? 0x80 then fmap (cons n0) (decode r0)
      else if n0 <? 0xC2 then Raise UnicodeDecodeError
      else if n0 <? 0xE0 then
        match r0 with
        | b1 :: r1 =>
            if is_cont b1
            then fmap (cons ((n0 - 0xC0) * 64 + cont b1)) (decode r1)
            else Raise UnicodeDecodeError
        | _ => Raise UnicodeDecodeError
        end
      else if n0 <? 0xF0 then
        match r0 with
        | b1 :: b2 :: r2 =>
            let c := (n0 - 0xE0) * 4096 + cont b1 * 64 + cont b2 in
            if is_cont b1 && is_cont b2
               && negb (c <? 0x800) && negb (is_surrogate c)
            then fmap (cons c) (decode r2)
            else Raise UnicodeDecodeError
        | _ => Raise UnicodeDecodeError
        end
      else if n0 <? 0xF5 then
        match r0 with
        | b1 :: b2 :: b3 :: r3 =>
            let c := (n0 - 0xF0) * 262144 + cont b1 * 4096
                     + cont b2 * 64 + cont b3 in
            if is_cont b1 && is_cont b2 && is_cont b3
               && negb (c <? 0x10000) && (c <? 0x110000)
            then fmap (cons c) (decode r3)
            else Raise UnicodeDecodeError
        | _ => Raise UnicodeDecodeError
        end
      else Raise UnicodeDecodeError
  end.

End Utf8.

(** ** Base64, as [base64.b64encode] and [base64.b64decode] (default
    arguments: standard alphabet, [validate=False]) *)

Module Base64.
Import Py.
Local Open Scope N_scope.

Definition alphabet : bytes :=
  bytes_lit "ABCDEFGHIJKLMNOPQRSTUVWXYZabcdefghijklmnopqrstuvwxyz0123456789+/".

Definition pad : ascii := "="%char.

(** [table_b2a_base64] *)
Definition b2a (n : N) : ascii := nth (N.to_nat n) alphabet pad.

(** [table_a2b_base64]: the 6-bit value of an alphabet character, [None]
    for every other byte. *)
Definition a2b (c : ascii) : option N :=
  let n := N_of_ascii c in
  if (65 <=? n) && (n <=? 90) then Some (n - 65)
  else if (97 <=? n) && (n <=? 122) then Some (n - 71)
  else if (48 <=? n) && (n <=? 57) then Some (n + 4)
  else if n =? 43 then Some 62
  else if n =? 47 then Some 63
  else None.

(** [b64encode]: three bytes give four characters; a final group of one
    or two bytes is padded with [=]. *)
Fixpoint b64encode (bs : bytes) : bytes :=
  match bs with
  | [] => []
  | [x] =>
      let a := N_of_ascii x in
      [b2a (a / 4); b2a ((a mod 4) * 16); pad; pad]
  | [x; y] =>
      let a := N_of_ascii x in
      let b := N_of_ascii y in
      [b2a (a / 4); b2a ((a mod 4) * 16 + b / 16); b2a ((b mod 16) * 4); pad]
  | x :: y :: z :: rest =>
      let a := N_of_ascii x in
      let b := N_of_ascii y in
      let c := N_of_ascii z in
      b2a (a / 4) :: b2a ((a mod 4) * 16 + b / 16)
        :: b2a ((b mod 16) * 4 + c / 64) :: b2a (c mod 64)
        :: b64encode rest
  end.

(** The decoder's loop ([binascii.a2b_base64], not strict): [quad_pos] is
    the position inside the current group of four, [leftchar] the bits
    not yet written, [pads] the number of [=] seen since the last
    alphabet character, [out] the bytes written so far (latest first).
    Bytes outside the alphabet are skipped; padding that completes a
    group ends the decoding; an unfinished group at the end of the input
    is an error. *)
Fixpoint a2b_loop (s : bytes) (quad_pos leftchar pads : N) (out : bytes)
  : result bytes :=
  match s with
  | [] => if quad_pos =? 0 then Ok (rev out) else Raise BinasciiError
  | ch :: s' =>
      if Ascii.eqb ch pad then
        if 2 <=? quad_pos then
          if 4 <=? quad_pos + (pads + 1) then Ok (rev out)
          else a2b_loop s' quad_pos leftchar (pads + 1) out
        else a2b_loop s' quad_pos leftchar pads out
      else
        match a2b ch with
        | None => a2b_loop s' quad_pos leftchar pads out
        | Some v =>
            if quad_pos =? 0 then a2b_loop s' 1 v 0 out
            else if quad_pos =? 1 then
              a2b_loop s' 2 (v mod 16) 0
                       (ascii_of_N (leftchar * 4 + v / 16) :: out)
            else if quad_pos =? 2 then
              a2b_loop s' 3 (v mod 4) 0
                       (ascii_of_N (leftchar * 16 + v / 4) :: out)
            else
              a2b_loop s' 0 0 0 (ascii_of_N (leftchar * 64 + v) :: out)
        end
  end.

Definition b64decode (s : bytes) : result bytes := a2b_loop s 0 0 0 [].

(** The number of alphabet characters of a byte string. *)
Fixpoint data_chars (s : bytes) : N :=
  match s with
  | [] => 0
  | ch :: s' =>
      match a2b ch with
      | Some _ => 1 + data_chars s'
      | None => data_chars s'
      end
  end.



(** What the decoder that is not strict can finish, said without its
    loop.  A [=] closes the text that precedes it when that text leaves
    three characters of a group, or two characters of a group and
    already holds a [=] with no alphabet character after it.  An input
    is complete when its alphabet characters fill groups of four, or
    when a [=] of it closes what precedes it. *)
Definition closes (pre : bytes) : Prop :=
  data_chars pre mod 4 = 3
  \/ (data_chars pre mod 4 = 2
      /\ exists pre1 junk, pre = pre1 ++ pad :: junk /\ data_chars junk = 0).

Definition complete (s : bytes) : Prop :=
  data_chars s mod 4 = 0
  \/ exists pre post, s = pre ++ pad :: post /\ closes pre.

End Base64.

(** ** cursor_pagination.py: the cursor codec *)

Module Codec.
Import Py.

(** [b64encode(str(value).encode()).decode()] *)
Definition encode_cursor (value : Py.value) : result str :=
  raw <- Utf8.encode (str_of value) ;;
  Utf8.decode (Base64.b64encode raw).

(** [try: return b64decode(cursor.encode()).decode()
     except Exception: return ""] *)
Definition decode_cursor (cursor : str) : str :=
  try_except
    (raw <- Utf8.encode cursor ;;
     payload <- Base64.b64decode raw ;;
     Utf8.decode payload)
    [].

(** A malformed cursor, by what it is made of: the empty string; text
    that has no bytes (it holds a lone surrogate); bytes that are not
    [complete] base64, such as text without [=] whose alphabet
    characters do not come in fours; or the base64 of bytes that are not
    UTF-8. *)
Inductive malformed (cursor : str) : Prop :=
| malformed_empty :
    cursor = [] -> malformed cursor
| malformed_text :
    Utf8.encodable cursor = false -> malformed cursor
| malformed_base64 raw :
    Utf8.encode cursor = Ok raw ->
    ~ Base64.complete raw ->
    malformed cursor
| malformed_payload payload :
    Utf8.decode (Base64.b64encode payload) = Ok cursor ->
    Utf8.decode payload = Raise UnicodeDecodeError ->
    malformed cursor.

End Codec.

(** ** The storage collaborator

    What [db.execute(query)] does is not part of the templates; the pagers
    only build statements and read rows back.  A statement is kept as the
    clauses the pagers add to it, and a session as the rows the caller's
    statement ranges over, in the order its ORDER BY gives them.  Clauses
    are evaluated the way SQLite does: a text parameter compared with an
    integer column is read as an integer when it looks like one (any
    integer sorts before any other text), text compares by code point, a
    negative LIMIT means no limit and a negative OFFSET means none. *)

Module Storage.
Import Py.

Inductive cmp_op : Set := Gt | Lt.

Section Rows.
Variable Item : Type.

(** A mapped column, as the attribute it reads from a row: the column
    is one of the rows' own, so that [getattr(row, column.name)] finds
    it. *)
Definition Column := Item -> value.

Record criterion : Type := Criterion {
  crit_column : Column;
  crit_op : cmp_op;
  crit_bound : str
}.

Record select : Type := Select {
  sel_where : list criterion;
  sel_offset : option Z;
  sel_limit : option Z
}.

(** [query.where(c)], [query.offset(n)], [query.limit(n)] *)
Definition where_ (q : select) (c : criterion) : select :=
  {| sel_where := sel_where q ++ [c];
     sel_offset := sel_offset q;
     sel_limit := sel_limit q |}.

Definition offset_ (q : select) (n : Z) : select :=
  {| sel_where := sel_where q;
     sel_offset := Some n;
     sel_limit := sel_limit q |}.

Definition limit_ (q : select) (n : Z) : select :=
  {| sel_where := sel_where q;
     sel_offset := sel_offset q;
     sel_limit := Some n |}.

(** [select(func.count()).select_from(query.subquery())] and any other
    statement read with [.scalar()]: the number of rows of a
    statement. *)
Inductive scalar_select : Type :=
| CountFrom (q : select).

Definition Session := list Item.

(** The bound of a criterion reaches the engine as text.  Against an
    integer column the engine reads the text as a number: [parse_int]
    reads the decimal integers that [str] writes for an [int], which is
    what a cursor made by [encode_cursor] over an integer key holds, and
    takes any other text as text (greater than every integer).  The
    other numeric spellings an engine may accept (blanks, a [+], a
    fraction, an exponent) are not read as numbers here. *)
Fixpoint digits_value (s : str) (acc : Z) : option Z :=
  match s with
  | [] => Some acc
  | c :: s' =>
      if ((48 <=? c) && (c <=? 57))%N
      then digits_value s' (10 * acc + Z.of_N (c - 48))
      else None
  end.

Definition parse_int (s : str) : option Z :=
  match s with
  | [] => None
  | 45%N :: d :: r => option_map Z.opp (digits_value (d :: r) 0)
  | _ => digits_value s 0
  end.

Fixpoint compare_text (s t : str) : comparison :=
  match s, t with
  | [], [] => Eq
  | [], _ :: _ => Datatypes.Lt
  | _ :: _, [] => Datatypes.Gt
  | a :: s', b :: t' =>
      match N.compare a b with
      | Eq => compare_text s' t'
      | c => c
      end
  end.

Definition compare_bound (v : value) (bound : str) : comparison :=
  match v with
  | VInt z =>
      match parse_int bound with
      | Some n => Z.compare z n
      | None => Datatypes.Lt
      end
  | VStr s => compare_text s bound
  end.

Definition holds (c : criterion) (row : Item) : bool :=
  match crit_op c, compare_bound (crit_column c row) (crit_bound c) with
  | Gt, Datatypes.Gt => true
  | Lt, Datatypes.Lt => true
  | _, _ => false
  end.

Definition apply_offset (o : option Z) (rows : list Item) : list Item :=
  match o with
  | None => rows
  | Some n => skipn (Z.to_nat n) rows
  end.

(** A negative LIMIT is no limit, as SQLite has it.  The engine takes
    64-bit values for OFFSET and LIMIT; no bound is put on them here. *)
Definition apply_limit (l : option Z) (rows : list Item) : list Item :=
  match l with
  | None => rows
  | Some n => if (n <? 0)%Z then rows else firstn (Z.to_nat n) rows
  end.

(** [list(db.execute(q).scalars().all())] *)
Definition execute (db : Session) (q : select) : list Item :=
  apply_limit (sel_limit q)
    (apply_offset (sel_offset q)
       (filter (fun row => forallb (fun c => holds c row) (sel_where q)) db)).

(** [db.execute(q).scalar()] *)
Definition execute_scalar (db : Session) (q : scalar_select) : option Z :=
  match q with
  | CountFrom sub => Some (len (execute db sub))
  end.

(** [select(Model)]: every row, no clause. *)
Definition select_all : select :=
  {| sel_where := []; sel_offset := None; sel_limit := None |}.

(** An integer column, such as an [id]. *)
Definition int_column (key : Item -> Z) : Column :=
  fun row => VInt (key row).

(** The rows come in strictly ascending order of an integer key, as
    [order_by(Model.id.asc())] over a primary key gives them. *)
Definition ascending (key : Item -> Z) (db : Session) : Prop :=
  StronglySorted (fun a b => (key a < key b)%Z) db.

End Rows.

End Storage.

(** ** cursor_pagination.py: the cursor pager *)

Module CursorPagination.
Import Py Storage Codec.

Section Pager.
Variable Item : Type.

(** The template's [{{maxPageSize}}]. *)
Variable maxPageSize : Z.

Record CursorPaginationParams : Type := {
  cursor : option str;
  limit : Z
}.

Record CursorPaginationResponse : Type := {
  data : list Item;
  next_cursor : option str;
  previous_cursor : option str;
  has_next : bool;
  has_previous : bool
}.

(** The locals of [cursor_paginate], one definition each, for the
    statements below to name them. *)

(** The same request without its cursor. *)
Definition no_cursor (params : CursorPaginationParams)
  : CursorPaginationParams :=
  {| cursor := None; limit := limit params |}.

(** [limit = min(params.limit, {{maxPageSize}})] *)
Definition effective_limit (params : CursorPaginationParams) : Z :=
  Z.min (limit params) maxPageSize.

(** [cursor_value = None]
    [if params.cursor: cursor_value = decode_cursor(params.cursor)] *)
Definition cursor_value (params : CursorPaginationParams) : option str :=
  if truthy_opt_str (cursor params)
  then option_map decode_cursor (cursor params)
  else None.

(** [if cursor_value:] the inequality on the cursor column, by
    direction. *)
Definition filtered (query : select Item) (cursor_column : Column Item)
           (params : CursorPaginationParams) (direction : string)
  : select Item :=
  match cursor_value params with
  | Some v =>
      if truthy_str v then
        if String.eqb direction "forward"
        then where_ query (Criterion cursor_column Gt v)
        else where_ query (Criterion cursor_column Lt v)
      else query
  | None => query
  end.

(** [query = query.limit(limit + 1)]: the statement sent to the
    session. *)
Definition statement (query : select Item) (cursor_column : Column Item)
           (params : CursorPaginationParams) (direction : string)
  : select Item :=
  limit_ (filtered query cursor_column params direction)
         (effective_limit params + 1).

(** [items = list(result.scalars().all())] *)
Definition fetched (db : Session Item) (query : select Item)
           (cursor_column : Column Item)
           (params : CursorPaginationParams) (direction : string)
  : list Item :=
  execute db (statement query cursor_column params direction).

(** [has_more = len(items) > limit] *)
Definition has_more (items : list Item) (params : CursorPaginationParams)
  : bool :=
  (len items >? effective_limit params)%Z.

(** [if has_more: items = items[:limit]] *)
Definition trimmed (items : list Item) (params : CursorPaginationParams)
  : list Item :=
  if has_more items params
  then slice_to items (effective_limit params)
  else items.

(** The cursors of a page: [items] is the trimmed page, [more] is
    [has_more], [cv] is [cursor_value]. *)
Definition cursors (cursor_column : Column Item) (items : list Item)
           (more : bool) (cv : option str)
  : result (option str * option str) :=
  match items with
  | [] => Ok (None, None)
  | first :: _ =>
      next <- (if more
               then fmap Some (encode_cursor (cursor_column (last items first)))
               else Ok None) ;;
      previous <- (if truthy_opt_str cv
                   then fmap Some (encode_cursor (cursor_column first))
                   else Ok None) ;;
      Ok (next, previous)
  end.

(** [cursor_paginate], statement by statement. *)
Definition cursor_paginate (db : Session Item) (query : select Item)
           (cursor_column : Column Item)
           (params : CursorPaginationParams) (direction : string)
  : result (list Item * option str * option str) :=
  let limit := Z.min (limit params) maxPageSize in
  (* Decode cursor if provided *)
  let cursor_value :=
    if truthy_opt_str (cursor params)
    then option_map decode_cursor (cursor params)
    else None in
  (* Apply cursor filter *)
  let query :=
    match cursor_value with
    | Some v =>
        if truthy_str v then
          if String.eqb direction "forward"
          then where_ query (Criterion cursor_column Gt v)
          else where_ query (Criterion cursor_column Lt v)
        else query
    | None => query
    end in
  (* Fetch limit + 1 to check if there are more items *)
  let query := limit_ query (limit + 1) in
  (* Execute query *)
  let items := execute db query in
  (* Check if there are more items *)
  let has_more := (len items >? limit)%Z in
  let items := if has_more then slice_to items limit else items in
  (* Generate cursors *)
  match items with
  | [] => Ok (items, None, None)
  | first :: _ =>
      next_cursor <-
        (if has_more
         then fmap Some (encode_cursor (cursor_column (last items first)))
         else Ok None) ;;
      previous_cursor <-
        (if truthy_opt_str cursor_value
         then fmap Some (encode_cursor (cursor_column first))
         else Ok None) ;;
      Ok (items, next_cursor, previous_cursor)
  end.

(** The response of the docstring's endpoint. *)
Definition respond (r : list Item * option str * option str)
  : CursorPaginationResponse :=
  let '(items, next, prev) := r in
  {| data := items;
     next_cursor := next;
     previous_cursor := prev;
     has_next := match next with Some _ => true | None => false end;
     has_previous := match prev with Some _ => true | None => false end |}.

End Pager.
End CursorPagination.

(** ** Python's [int / int] and [math.ceil]

    True division of two integers gives the binary64 number nearest to the
    exact quotient (ties to the even significand); [math.ceil] of a float
    is an exact integer.  A finite binary64 number is kept as
    [mant * 2 ^ expo]. *)

Module Float.
Import Py.
Local Open Scope Z_scope.

Record float : Set := Float { mant : Z; expo : Z }.

(** [floor(log2(a / b))] for positive [a] and [b]. *)
Definition quotient_log2 (a b : Z) : Z :=
  let p0 := Z.log2 a - Z.log2 b in
  if b * 2 ^ Z.max p0 0 <=? a * 2 ^ Z.max (- p0) 0 then p0 else p0 - 1.

(** The exponent of the unit in the last place: 53 significant bits, and
    no exponent below that of the subnormal numbers. *)
Definition ulp_exponent (a b : Z) : Z := Z.max (quotient_log2 a b - 52) (-1074).

(** [num / den] rounded to the nearest integer, ties to even. *)
Definition round_half_even (num den : Z) : Z :=
  let q := num / den in
  let r := num mod den in
  match 2 * r ?= den with
  | Datatypes.Lt => q
  | Datatypes.Gt => q + 1
  | Eq => if Z.even q then q else q + 1
  end.

(** The magnitude of [a / b] for positive [a] and [b]. *)
Definition divide_pos (a b : Z) : result float :=
  let e := ulp_exponent a b in
  let m := round_half_even (a * 2 ^ Z.max (- e) 0) (b * 2 ^ Z.max e 0) in
  if (971 <? e) || ((e =? 971) && (m =? 2 ^ 53))
  then Raise OverflowError
  else Ok (Float m e).

(** [a / b] *)
Definition truediv (a b : Z) : result float :=
  if b =? 0 then Raise ZeroDivisionError
  else if a =? 0 then Ok (Float 0 0)
  else
    f <- divide_pos (Z.abs a) (Z.abs b) ;;
    Ok (Float (Z.sgn a * Z.sgn b * mant f) (expo f)).

(** [math.ceil(x)] *)
Definition ceil (x : float) : Z :=
  if 0 <=? expo x then mant x * 2 ^ expo x
  else - ((- mant x) / 2 ^ (- expo x)).

(** [k] is the ceiling of the exact quotient [a / b], for positive [b]:
    the least integer not below it. *)
Definition is_ceiling (a b k : Z) : Prop := (k - 1) * b < a <= k * b.

End Float.

(** ** offset_pagination.py *)

Module OffsetPagination.
Import Py Storage.
Local Open Scope Z_scope.

Section Pager.
Variable Item : Type.

(** The template's [{{maxPageSize}}]. *)
Variable maxPageSize : Z.

Record OffsetPaginationParams : Type := {
  page : Z;
  limit : Z
}.

(** [page: Field(ge=1)], [limit: Field(ge=1, le={{maxPageSize}})] *)
Definition validated (params : OffsetPaginationParams) : bool :=
  (1 <=? page params) && (1 <=? limit params)
  && (limit params <=? maxPageSize).

(** The [offset] property. *)
Definition offset (params : OffsetPaginationParams) : Z :=
  (page params - 1) * limit params.

Record OffsetPaginationMeta : Type := {
  current_page : Z;
  page_size : Z;
  total_items : Z;
  total_pages : Z;
  has_next : bool;
  has_previous : bool
}.

Record OffsetPaginationResponse : Type := {
  data : list Item;
  pagination : OffsetPaginationMeta
}.

(** [if count_query is None:
       count_query = select(func.count()).select_from(query.subquery())] *)
Definition count_statement (query : select Item)
           (count_query : option (scalar_select Item))
  : scalar_select Item :=
  match count_query with
  | None => CountFrom query
  | Some q => q
  end.

(** [x or 0] *)
Definition or_zero (x : option Z) : Z :=
  match x with
  | None => 0
  | Some n => if n =? 0 then 0 else n
  end.

(** [query.offset(params.offset).limit(params.limit)] *)
Definition paginated_query (query : select Item)
           (params : OffsetPaginationParams) : select Item :=
  limit_ (offset_ query (offset params)) (limit params).

Definition offset_paginate (db : Session Item) (query : select Item)
           (params : OffsetPaginationParams)
           (count_query : option (scalar_select Item))
  : list Item * Z :=
  let total_count :=
    or_zero (execute_scalar db (count_statement query count_query)) in
  let items := execute db (paginated_query query params) in
  (items, total_count).

(** [ceil(total_items / limit) if limit > 0 else 0] *)
Definition compute_total_pages (total_items limit : Z) : result Z :=
  if limit >? 0
  then fmap Float.ceil (Float.truediv total_items limit)
  else Ok 0.

Definition create_pagination_response (items : list Item)
           (total_items page limit : Z)
  : result OffsetPaginationResponse :=
  total_pages <- compute_total_pages total_items limit ;;
  Ok {| data := items;
        pagination :=
          {| current_page := page;
             page_size := limit;
             total_items := total_items;
             total_pages := total_pages;
             has_next := page <? total_pages;
             has_previous := page >? 1 |} |}.

(** The endpoint of [offset_paginate]'s docstring, from parameters
    already built: the same metadata, with [ceil(total / params.limit)]
    written out (twice) and no test of the limit. *)
Definition list_users (db : Session Item) (query : select Item)
           (params : OffsetPaginationParams)
  : result OffsetPaginationResponse :=
  let '(items, total) := offset_paginate db query params None in
  pages <- fmap Float.ceil (Float.truediv total (limit params)) ;;
  pages' <- fmap Float.ceil (Float.truediv total (limit params)) ;;
  Ok {| data := items;
        pagination :=
          {| current_page := page params;
             page_size := limit params;
             total_items := total;
             total_pages := pages;
             has_next := page params <? pages';
             has_previous := page params >? 1 |} |}.

End Pager.
End OffsetPagination.

(** ** schemas.py *)

Module Schemas.
Import Py.
Local Open Scope Z_scope.

Record PaginationLinks : Type := {
  first : option str;
  previous : option str;
  next : option str;
  last : option str
}.

Record OffsetPagination : Type := {
  current_page : Z;
  page_size : Z;
  total_items : Z;
  total_pages : Z;
  has_next : bool;
  has_previous : bool
}.

(** [OffsetPagination(current_page=..., ...)]: the model is built when the
    fields meet their [Field] bounds ([ge=1], [ge=1], [ge=0], [ge=0]);
    [None] stands for the ValidationError raised otherwise. *)
Definition make_offset_pagination
           (current_page page_size total_items total_pages : Z)
           (has_next has_previous : bool) : option OffsetPagination :=
  if (1 <=? current_page) && (1 <=? page_size)
     && (0 <=? total_items) && (0 <=? total_pages)
  then Some {| current_page := current_page;
               page_size := page_size;
               total_items := total_items;
               total_pages := total_pages;
               has_next := has_next;
               has_previous := has_previous |}
  else None.

End Schemas.

(** ** A table to run the pagers on *)

Module Sample.
Import Py Storage.
Local Open Scope Z_scope.

Record User : Set := { user_id : Z }.

(** [User.id] *)
Definition user_key : Column User := fun u => VInt (user_id u).

Definition users_of (ids : list Z) : Session User := map Build_User ids.

(** Users with ids 1, 2, ..., 23, in ascending order. *)
Definition users : Session User :=
  users_of (map Z.of_nat (seq 1 23)).

(** [select(User).order_by(User.id.asc())] *)
Definition all_users : select User :=
  {| sel_where := []; sel_offset := None; sel_limit := None |}.

End Sample.

(** * Properties *)

Unset Implicit Arguments.
Import Py.

Ltac n_arith := zify; Z.to_euclidean_division_equations; lia.

Lemma Ok_inj {A : Type} (a b : A) : Ok a = Ok b -> a = b.
Proof. now intros [= ->]. Qed.

Lemma byte_bounded (x : ascii) : (N_of_ascii x < 256)%N.
Proof. apply N_ascii_bounded. Qed.

Lemma firstn_incl {A : Type} (n : nat) (l : list A) : incl (firstn n l) l.
Proof.
  intros x H. rewrite <- (firstn_skipn n l). apply in_or_app. now left.
Qed.

Lemma skipn_incl {A : Type} (n : nat) (l : list A) : incl (skipn n l) l.
Proof.
  intros x H. rewrite <- (firstn_skipn n l). apply in_or_app. now right.
Qed.

Lemma last_in {A : Type} (l : list A) (d : A) : l <> [] -> In (last l d) l.
Proof.
  intro H. destruct (exists_last H) as [init [x ->]].
  rewrite last_last. apply in_or_app. right. now left.
Qed.

Lemma list_ind3 {A : Type} (P : list A -> Prop) :
  P [] ->
  (forall x, P [x]) ->
  (forall x y, P [x; y]) ->
  (forall x y z r, P r -> P (x :: y :: z :: r)) ->
  forall l, P l.
Proof.
  intros H0 H1 H2 H3.
  assert (forall l, P l /\ (forall x, P (x :: l)) /\ (forall x y, P (x :: y :: l)))
    as H.
  { induction l as [|a l [IH0 [IH1 IH2]]].
    - repeat split; auto.
    - repeat split; auto. }
  intro l. apply H.
Qed.

(** ** Base64 *)

Section Base64Facts.
Import Base64.
Local Open Scope N_scope.

Lemma sextet_cases (P : N -> Prop) :
  (forall n, In n (map N.of_nat (seq 0 64)) -> P n) ->
  forall n, n < 64 -> P n.
Proof.
  intros H n Hn. apply H.
  apply in_map_iff. exists (N.to_nat n). split.
  - apply N2Nat.id.
  - apply in_seq. lia.
Qed.

Lemma a2b_b2a n : n < 64 -> a2b (b2a n) = Some n.
Proof.
  revert n. apply sextet_cases. intros n Hn.
  repeat (destruct Hn as [<- | Hn]; [reflexivity|]). destruct Hn.
Qed.

Lemma b2a_not_pad n : n < 64 -> Ascii.eqb (b2a n) pad = false.
Proof.
  revert n. apply sextet_cases. intros n Hn.
  repeat (destruct Hn as [<- | Hn]; [reflexivity|]). destruct Hn.
Qed.

Lemma b2a_ascii n : N_of_ascii (b2a n) < 128.
Proof.
  destruct (N.lt_ge_cases n 64) as [Hn | Hn].
  - revert n Hn. apply sextet_cases. intros n Hn.
    repeat (destruct Hn as [<- | Hn]; [reflexivity|]). destruct Hn.
  - unfold b2a. rewrite nth_overflow; [reflexivity|].
    change (List.length alphabet) with 64%nat. lia.
Qed.

(** One step of the decoder on an alphabet character. *)
Lemma a2b_loop_sextet v s qp lc pd out :
  v < 64 ->
  a2b_loop (b2a v :: s) qp lc pd out =
  if qp =? 0 then a2b_loop s 1 v 0 out
  else if qp =? 1 then
    a2b_loop s 2 (v mod 16) 0 (ascii_of_N (lc * 4 + v / 16) :: out)
  else if qp =? 2 then
    a2b_loop s 3 (v mod 4) 0 (ascii_of_N (lc * 16 + v / 4) :: out)
  else a2b_loop s 0 0 0 (ascii_of_N (lc * 64 + v) :: out).
Proof.
  intro Hv. cbn [a2b_loop].
  rewrite (b2a_not_pad _ Hv), (a2b_b2a _ Hv). reflexivity.
Qed.

Lemma a2b_loop_pad s qp lc pd out :
  a2b_loop (pad :: s) qp lc pd out =
  if 2 <=? qp then
    if 4 <=? qp + (pd + 1) then Ok (rev out)
    else a2b_loop s qp lc (pd + 1) out
  else a2b_loop s qp lc pd out.
Proof. reflexivity. Qed.

Lemma a2b_loop_b64encode bs : forall lc pd out,
  a2b_loop (b64encode bs) 0 lc pd out = Ok (rev out ++ bs).
Proof.
  induction bs as [| x | x y | x y z r IH] using list_ind3; intros lc pd out.
  - cbn. now rewrite app_nil_r.
  - pose proof (byte_bounded x) as Hx.
    cbn [b64encode].
    rewrite a2b_loop_sextet by n_arith. cbn [N.eqb].
    rewrite a2b_loop_sextet by n_arith. cbn [N.eqb Pos.eqb].
    rewrite !a2b_loop_pad. cbn.
    replace (N_of_ascii x / 4 * 4 + N_of_ascii x mod 4 * 16 / 16)
      with (N_of_ascii x) by n_arith.
    now rewrite ascii_N_embedding.
  - pose proof (byte_bounded x) as Hx. pose proof (byte_bounded y) as Hy.
    cbn [b64encode].
    rewrite a2b_loop_sextet by n_arith. cbn [N.eqb].
    rewrite a2b_loop_sextet by n_arith. cbn [N.eqb Pos.eqb].
    rewrite a2b_loop_sextet by n_arith. cbn [N.eqb Pos.eqb].
    rewrite a2b_loop_pad. cbn.
    replace (N_of_ascii x / 4 * 4
             + (N_of_ascii x mod 4 * 16 + N_of_ascii y / 16) / 16)
      with (N_of_ascii x) by n_arith.
    replace ((N_of_ascii x mod 4 * 16 + N_of_ascii y / 16) mod 16 * 16
             + N_of_ascii y mod 16 * 4 / 4)
      with (N_of_ascii y) by n_arith.
    rewrite !ascii_N_embedding. rewrite <- !app_assoc. reflexivity.
  - pose proof (byte_bounded x) as Hx. pose proof (byte_bounded y) as Hy.
    pose proof (byte_bounded z) as Hz.
    cbn [b64encode].
    rewrite a2b_loop_sextet by n_arith. cbn [N.eqb].
    rewrite a2b_loop_sextet by n_arith. cbn [N.eqb Pos.eqb].
    rewrite a2b_loop_sextet by n_arith. cbn [N.eqb Pos.eqb].
    rewrite a2b_loop_sextet by n_arith. cbn [N.eqb Pos.eqb].
    rewrite IH. cbn [rev].
    replace (N_of_ascii x / 4 * 4
             + (N_of_ascii x mod 4 * 16 + N_of_ascii y / 16) / 16)
      with (N_of_ascii x) by n_arith.
    replace ((N_of_ascii x mod 4 * 16 + N_of_ascii y / 16) mod 16 * 16
             + (N_of_ascii y mod 16 * 4 + N_of_ascii z / 64) / 4)
      with (N_of_ascii y) by n_arith.
    replace ((N_of_ascii y mod 16 * 4 + N_of_ascii z / 64) mod 4 * 64
             + N_of_ascii z mod 64)
      with (N_of_ascii z) by n_arith.
    rewrite !ascii_N_embedding. rewrite <- !app_assoc. reflexivity.
Qed.

(** Decoding inverts encoding on every byte string. *)
Lemma b64decode_b64encode bs : b64decode (b64encode bs) = Ok bs.
Proof. unfold b64decode. now rewrite a2b_loop_b64encode. Qed.

(** Without padding, alphabet characters that do not come in fours are
    rejected, whatever other bytes stand between them. *)
Lemma a2b_loop_unpadded s : forall qp lc pd out,
  qp < 4 -> ~ In pad s -> (qp + data_chars s) mod 4 <> 0 ->
  a2b_loop s qp lc pd out = Raise BinasciiError.
Proof.
  induction s as [|ch s IH]; intros qp lc pd out Hqp Hpad Hmod.
  - cbn [a2b_loop data_chars] in *. rewrite N.add_0_r in Hmod.
    rewrite N.mod_small in Hmod by assumption.
    destruct (N.eqb_spec qp 0); [contradiction | reflexivity].
  - cbn [a2b_loop data_chars] in *.
    assert (Ascii.eqb ch pad = false) as ->.
    { apply Ascii.eqb_neq. intros ->. apply Hpad. now left. }
    assert (~ In pad s) as Hpad' by (intro; apply Hpad; now right).
    destruct (a2b ch) as [v|]; [|now apply IH].
    destruct (N.eqb_spec qp 0) as [->|H0]; [apply IH; [lia | assumption | n_arith]|].
    destruct (N.eqb_spec qp 1) as [->|H1]; [apply IH; [lia | assumption | n_arith]|].
    destruct (N.eqb_spec qp 2) as [->|H2]; [apply IH; [lia | assumption | n_arith]|].
    assert (qp = 3) as -> by lia. apply IH; [lia | assumption | n_arith].
Qed.

Lemma b64decode_unpadded s :
  ~ In pad s -> data_chars s mod 4 <> 0 ->
  b64decode s = Raise BinasciiError.
Proof.
  intros Hpad Hmod. unfold b64decode.
  apply a2b_loop_unpadded; [lia | assumption | exact Hmod].
Qed.

Lemma data_chars_app s t :
  data_chars (s ++ t) = data_chars s + data_chars t.
Proof.
  induction s as [|ch s IH]; cbn [app data_chars]; [reflexivity|].
  destruct (a2b ch); lia.
Qed.







(** The encoder writes ASCII only. *)
Lemma b64encode_ascii bs :
  Forall (fun c => N_of_ascii c < 128) (b64encode bs).
Proof.
  induction bs as [| x | x y | x y z r IH] using list_ind3;
    cbn [b64encode]; repeat constructor;
    try apply b2a_ascii; try reflexivity; assumption.
Qed.

End Base64Facts.

(** ** UTF-8 *)

Section Utf8Facts.
Import Utf8.
Local Open Scope N_scope.

Ltac decide_tests :=
  repeat match goal with
    | |- context [N.ltb ?a ?b] =>
        destruct (N.ltb_spec a b); try (exfalso; n_arith)
    | |- context [N.leb ?a ?b] =>
        destruct (N.leb_spec a b); try (exfalso; n_arith)
    end;
  cbn [andb negb orb].

Lemma decode_cons_ascii b rest :
  N_of_ascii b < 128 ->
  decode (b :: rest) = fmap (cons (N_of_ascii b)) (decode rest).
Proof.
  intro Hb. cbn [decode].
  destruct (N.ltb_spec (N_of_ascii b) 0x80); [reflexivity | lia].
Qed.

(** Decoding reads back the bytes of one encoded code point. *)
Lemma decode_encode_char c b rest :
  encode_char c = Ok b ->
  decode (b ++ rest) = fmap (cons c) (decode rest).
Proof.
  unfold encode_char, is_surrogate.
  destruct (N.ltb_spec c 0x80) as [H1|H1].
  { intros <-%Ok_inj. cbn [app]. rewrite decode_cons_ascii.
    - unfold byte. now rewrite N_ascii_embedding by lia.
    - unfold byte. rewrite N_ascii_embedding by lia. lia. }
  destruct (N.ltb_spec c 0x800) as [H2|H2].
  { intros <-%Ok_inj. cbn [app decode]. unfold is_cont, cont, byte.
    rewrite !N_ascii_embedding by n_arith.
    decide_tests. do 2 f_equal. n_arith. }
  destruct (N.ltb_spec c 0x10000) as [H3|H3].
  { destruct (N.leb_spec 0xD800 c) as [H4|H4];
      [destruct (N.leb_spec c 0xDFFF) as [H5|H5]|]; cbn [andb];
      try discriminate.
    - intros <-%Ok_inj. cbn [app decode].
      unfold is_cont, cont, byte, is_surrogate.
      rewrite !N_ascii_embedding by n_arith.
      replace ((0xE0 + c / 4096 - 0xE0) * 4096
               + (0x80 + (c / 64) mod 64 - 0x80) * 64
               + (0x80 + c mod 64 - 0x80)) with c by n_arith.
      decide_tests. reflexivity.
    - intros <-%Ok_inj. cbn [app decode].
      unfold is_cont, cont, byte, is_surrogate.
      rewrite !N_ascii_embedding by n_arith.
      replace ((0xE0 + c / 4096 - 0xE0) * 4096
               + (0x80 + (c / 64) mod 64 - 0x80) * 64
               + (0x80 + c mod 64 - 0x80)) with c by n_arith.
      decide_tests. reflexivity. }
  destruct (N.ltb_spec c 0x110000) as [H4|H4]; [|discriminate].
  intros <-%Ok_inj. cbn [app decode]. unfold is_cont, cont, byte.
  rewrite !N_ascii_embedding by n_arith.
  replace ((0xF0 + c / 262144 - 0xF0) * 262144
           + (0x80 + (c / 4096) mod 64 - 0x80) * 4096
           + (0x80 + (c / 64) mod 64 - 0x80) * 64
           + (0x80 + c mod 64 - 0x80)) with c by n_arith.
  decide_tests. reflexivity.
Qed.

(** [s.encode().decode() == s] whenever [s.encode()] succeeds. *)
Lemma decode_encode s : forall bs,
  encode s = Ok bs -> decode bs = Ok s.
Proof.
  induction s as [|c s IH]; intros bs; cbn [encode].
  - now intros [= <-].
  - destruct (encode_char c) as [b|] eqn:Hc; [|discriminate].
    destruct (encode s) as [bs'|] eqn:Hs; [|discriminate].
    cbn [bind]. intros [= <-].
    rewrite (decode_encode_char _ _ _ Hc), (IH _ eq_refl). reflexivity.
Qed.

Lemma encode_char_scalar c :
  scalar_value c = true -> exists b, encode_char c = Ok b.
Proof.
  unfold scalar_value, encode_char.
  destruct (is_surrogate c); cbn [negb]; rewrite ?andb_false_r;
    [discriminate|].
  rewrite andb_true_r. intro Hc. rewrite Hc.
  repeat match goal with
    | |- context [if ?t then _ else _] => destruct t
    end; eexists; reflexivity.
Qed.

(** Strings of scalar values are exactly those [encode] accepts. *)
Lemma encode_encodable s :
  encodable s = true -> exists bs, encode s = Ok bs.
Proof.
  induction s as [|c s IH]; cbn [encodable forallb encode].
  - eexists; reflexivity.
  - intros [Hc Hs]%andb_prop.
    destruct (encode_char_scalar _ Hc) as [b ->].
    destruct (IH Hs) as [bs ->]. eexists; reflexivity.
Qed.

Lemma decode_ascii bs :
  Forall (fun b => N_of_ascii b < 128) bs ->
  decode bs = Ok (map N_of_ascii bs).
Proof.
  induction 1 as [|b bs Hb _ IH]; [reflexivity|].
  rewrite decode_cons_ascii by assumption. now rewrite IH.
Qed.

Lemma encode_ascii bs :
  Forall (fun b => N_of_ascii b < 128) bs ->
  encode (map N_of_ascii bs) = Ok bs.
Proof.
  induction 1 as [|b bs Hb _ IH]; [reflexivity|].
  cbn [map encode]. rewrite IH. unfold encode_char.
  destruct (N.ltb_spec (N_of_ascii b) 0x80); [|lia].
  unfold byte. now rewrite ascii_N_embedding.
Qed.

Lemma encode_spec s :
  if Utf8.encodable s
  then exists bs, Utf8.encode s = Ok bs
  else Utf8.encode s = Raise UnicodeEncodeError.
Proof.
  induction s as [|c s IH]; cbn [Utf8.encodable forallb Utf8.encode].
  - eexists; reflexivity.
  - fold (Utf8.encodable s).
    destruct (Utf8.scalar_value c) eqn:Hc; cbn [andb].
    + destruct (encode_char_scalar _ Hc) as [b ->]. cbn [bind].
      destruct (Utf8.encodable s).
      * destruct IH as [bs ->]. eexists; reflexivity.
      * rewrite IH. reflexivity.
    + unfold Utf8.scalar_value in Hc. unfold Utf8.encode_char.
      destruct (Utf8.is_surrogate c) eqn:Hs.
      * unfold Utf8.is_surrogate in Hs.
        apply andb_prop in Hs. destruct Hs as [H1 H2].
        apply N.leb_le in H1, H2.
        destruct (N.ltb_spec c 0x80); [lia|].
        destruct (N.ltb_spec c 0x800); [lia|].
        destruct (N.ltb_spec c 0x10000); [reflexivity | lia].
      * cbn [negb] in Hc. rewrite andb_true_r in Hc.
        apply N.ltb_ge in Hc.
        destruct (N.ltb_spec c 0x80); [lia|].
        destruct (N.ltb_spec c 0x800); [lia|].
        destruct (N.ltb_spec c 0x10000); [lia|].
        destruct (N.ltb_spec c 0x110000); [lia | reflexivity].
Qed.

End Utf8Facts.

(** ** Text of integers *)

Section IntText.
Local Open Scope N_scope.

Lemma string_of_uint_ascii d :
  Forall (fun b => N_of_ascii b < 128)
         (list_ascii_of_string (NilEmpty.string_of_uint d)).
Proof.
  induction d; cbn; constructor; try assumption; reflexivity.
Qed.

Lemma string_of_int_ascii d :
  Forall (fun b => N_of_ascii b < 128)
         (list_ascii_of_string (NilZero.string_of_int d)).
Proof.
  destruct d as [d|d]; cbn [NilZero.string_of_int].
  - unfold NilZero.string_of_uint.
    destruct d; try apply string_of_uint_ascii.
    repeat constructor.
  - cbn. constructor; [reflexivity|].
    unfold NilZero.string_of_uint.
    destruct d; try apply string_of_uint_ascii.
    repeat constructor.
Qed.

(** [str(z)] is ASCII, hence always encodable. *)
Lemma str_of_int_encodable z : Utf8.encodable (str_of_int z) = true.
Proof.
  unfold str_of_int, str_lit, Utf8.encodable.
  apply forallb_forall. intros c Hc.
  apply in_map_iff in Hc. destruct Hc as [b [<- Hb]].
  pose proof (string_of_int_ascii (Z.to_int z)) as H.
  rewrite Forall_forall in H. specialize (H _ Hb).
  unfold Utf8.scalar_value, Utf8.is_surrogate.
  destruct (N.ltb_spec (N_of_ascii b) 0x110000); [|lia].
  destruct (N.leb_spec 0xD800 (N_of_ascii b)); [lia|]. reflexivity.
Qed.

End IntText.

(** ** The cursor codec *)

Section CodecFacts.
Import Codec.

(** What [encode_cursor] returns, when the key's text is encodable. *)
Lemma encode_cursor_ok x raw :
  Utf8.encode (str_of x) = Ok raw ->
  encode_cursor x = Ok (map N_of_ascii (Base64.b64encode raw)).
Proof.
  intro H. unfold encode_cursor. rewrite H. cbn [bind].
  apply decode_ascii, b64encode_ascii.
Qed.

Lemma encode_cursor_encodable x :
  Utf8.encodable (str_of x) = true -> exists c, encode_cursor x = Ok c.
Proof.
  intro Hx. destruct (encode_encodable _ Hx) as [raw Hraw].
  eexists. apply encode_cursor_ok. exact Hraw.
Qed.

(** [decode_cursor] always returns: the empty string, or the text of a
    payload that went through all three steps. *)
Lemma decode_cursor_total c :
  decode_cursor c = []
  \/ exists raw payload,
       Utf8.encode c = Ok raw
       /\ Base64.b64decode raw = Ok payload
       /\ Utf8.decode payload = Ok (decode_cursor c).
Proof.
  unfold decode_cursor.
  destruct (Utf8.encode c) as [raw|] eqn:Hr; cbn [bind]; [|now left].
  destruct (Base64.b64decode raw) as [payload|] eqn:Hb; cbn [bind];
    [|now left].
  destruct (Utf8.decode payload) as [text|] eqn:Hp; [|now left].
  right. exists raw, payload. auto.
Qed.

Lemma decode_cursor_b64 raw s :
  Utf8.decode raw = Ok s ->
  decode_cursor (map N_of_ascii (Base64.b64encode raw)) = s.
Proof.
  intro H. unfold decode_cursor.
  rewrite encode_ascii by apply b64encode_ascii. cbn [bind].
  rewrite b64decode_b64encode. cbn [bind]. now rewrite H.
Qed.

End CodecFacts.

(** C1 (as amended): for every ordering-key value [x] whose text [str(x)]
    is encodable, [encode_cursor(x)] returns a cursor and decoding that
    cursor returns the text [str(x)] of the key, which is [x] itself when
    [x] is a string. *)
Theorem decode_encode_cursor_text (x : value) :
  Utf8.encodable (str_of x) = true ->
  exists c, Codec.encode_cursor x = Ok c
            /\ Codec.decode_cursor c = str_of x
            /\ (forall s, x = VStr s -> VStr (Codec.decode_cursor c) = x).
Proof.
  intro Hx. destruct (encode_encodable _ Hx) as [raw Hraw].
  exists (map N_of_ascii (Base64.b64encode raw)).
  pose proof (decode_cursor_b64 _ _ (decode_encode _ _ Hraw)) as Hd.
  repeat split.
  - now apply encode_cursor_ok.
  - exact Hd.
  - intros s ->. now rewrite Hd.
Qed.

Lemma decode_encode_cursor_text_witness :
  exists c, Codec.encode_cursor (VStr [233; 8364; 128512]%N) = Ok c
            /\ Codec.decode_cursor c = [233; 8364; 128512]%N
            /\ (forall s, VStr [233; 8364; 128512]%N = VStr s ->
                          VStr (Codec.decode_cursor c) = VStr [233; 8364; 128512]%N).
Proof.
  apply (decode_encode_cursor_text (VStr [233; 8364; 128512]%N)).
  reflexivity.
Defined.

(** Integer keys always have a cursor, and it decodes to their decimal
    text. *)
Lemma decode_encode_cursor_int (z : Z) :
  exists c, Codec.encode_cursor (VInt z) = Ok c
            /\ Codec.decode_cursor c = str_of_int z.
Proof.
  destruct (encode_encodable _ (str_of_int_encodable z)) as [raw Hraw].
  exists (map N_of_ascii (Base64.b64encode raw)). split.
  - now apply encode_cursor_ok.
  - exact (decode_cursor_b64 _ _ (decode_encode _ _ Hraw)).
Qed.

(** C1 (as stated) fails on an integer key: the cursor of [10] decodes to
    the string ["10"], and [decode_cursor(encode_cursor(10)) == 10] is
    false. *)
Lemma decode_encode_cursor_int_not_identity :
  Codec.encode_cursor (VInt 10) = Ok (str_lit "MTA=")
  /\ Codec.decode_cursor (str_lit "MTA=") = str_lit "10"
  /\ Py.eqb (VStr (Codec.decode_cursor (str_lit "MTA="))) (VInt 10) = false
  /\ ~ (forall x c, Codec.encode_cursor x = Ok c ->
                    Py.eqb (VStr (Codec.decode_cursor c)) x = true).
Proof.
  repeat split.
  intro H. specialize (H (VInt 10) (str_lit "MTA=") eq_refl). discriminate H.
Qed.

(** ** The cursor pager *)

Section CursorPagerFacts.
Import Storage Codec CursorPagination.
Local Open Scope Z_scope.

Context {Item : Type}.
Variable maxPageSize : Z.

Implicit Types (db : Session Item) (query : select Item)
         (cursor_column : Column Item) (params : CursorPaginationParams)
         (direction : string) (items : list Item).

(** [cursor_paginate] in terms of its locals. *)
Lemma cursor_paginate_pieces db query cursor_column params direction :
  cursor_paginate maxPageSize db query cursor_column params direction =
  let got := fetched maxPageSize db query cursor_column params direction in
  let page := trimmed maxPageSize got params in
  cs <- cursors cursor_column page (has_more maxPageSize got params)
                (cursor_value params) ;;
  Ok (page, fst cs, snd cs).
Proof.
  unfold cursor_paginate, fetched, statement, filtered, trimmed, has_more,
    cursors, cursor_value, effective_limit.
  cbv zeta.
  match goal with
  | |- match ?l with _ => _ end = _ => destruct l as [|first rest]
  end; [reflexivity|].
  destruct (len _ >? _)%Z, (truthy_opt_str _);
    repeat match goal with
      | |- context [encode_cursor ?v] => destruct (encode_cursor v)
      end; reflexivity.
Qed.


(** A cursor without [=] whose base64 characters do not come in fours is
    malformed. *)
Lemma unpadded_cursor_malformed c raw :
  Utf8.encode c = Ok raw ->
  ~ In Base64.pad raw -> (Base64.data_chars raw mod 4 <> 0)%N ->
  malformed c.
Proof.
  intros Hraw Hpad Hmod.
  apply malformed_base64 with (raw := raw); [exact Hraw|].
  intros [H | (pre & post & -> & _)]; [contradiction|].
  apply Hpad, in_or_app. right. now left.
Qed.

(** The decoded cursor counts only when it is a non-empty string. *)
Lemma cursor_value_truthy params :
  truthy_opt_str (cursor_value params) = true <->
  exists c, cursor params = Some c /\ c <> [] /\ decode_cursor c <> [].
Proof.
  unfold cursor_value. destruct (cursor params) as [c|]; cbn.
  - destruct c as [|a c]; cbn.
    + split; [discriminate|]. intros [c [[= <-] [H _]]]. now destruct H.
    + destruct (decode_cursor (a :: c)) as [|b v] eqn:Hd; cbn.
      * split; [discriminate|].
        intros [c' [[= <-] [_ H]]]. now destruct H.
      * split; [|reflexivity]. intros _. exists (a :: c).
        rewrite Hd. repeat split; discriminate.
  - split; [discriminate|]. intros [c [[=] _]].
Qed.

Lemma cursor_value_falsy_decode params c :
  cursor params = Some c -> decode_cursor c = [] ->
  truthy_opt_str (cursor_value params) = false.
Proof.
  intros Hc Hd. unfold cursor_value. rewrite Hc. cbn.
  destruct (truthy_str c); cbn; [now rewrite Hd | reflexivity].
Qed.

Lemma filtered_falsy query cursor_column params direction :
  truthy_opt_str (cursor_value params) = false ->
  filtered query cursor_column params direction = query.
Proof.
  unfold filtered. destruct (cursor_value params) as [v|]; cbn; [|reflexivity].
  now intros ->.
Qed.

Lemma cursors_falsy cursor_column items more cv :
  truthy_opt_str cv = false ->
  cursors cursor_column items more cv = cursors cursor_column items more None.
Proof. intro H. unfold cursors. now rewrite H. Qed.

(** A request whose cursor does not count is served as the same request
    without a cursor. *)
Lemma cursor_paginate_falsy db query cursor_column params direction :
  truthy_opt_str (cursor_value params) = false ->
  cursor_paginate maxPageSize db query cursor_column params direction =
  cursor_paginate maxPageSize db query cursor_column (no_cursor params)
                  direction.
Proof.
  intro H. rewrite !cursor_paginate_pieces. unfold fetched, statement.
  rewrite (filtered_falsy _ _ _ _ H).
  rewrite (filtered_falsy query cursor_column (no_cursor params) direction)
    by reflexivity.
  rewrite (cursors_falsy _ _ _ _ H). reflexivity.
Qed.

Lemma cursors_previous_falsy cursor_column items more cv next prev :
  truthy_opt_str cv = false ->
  cursors cursor_column items more cv = Ok (next, prev) ->
  prev = None.
Proof.
  intros H. unfold cursors. rewrite H.
  destruct items as [|first rest]; [now intros [= _ <-]|].
  destruct (if more then _ else _) as [n|]; cbn [bind]; [|discriminate].
  now intros [= _ <-].
Qed.

Lemma cursor_paginate_inv db query cursor_column params direction
      items next prev :
  cursor_paginate maxPageSize db query cursor_column params direction
  = Ok (items, next, prev) ->
  let got := fetched maxPageSize db query cursor_column params direction in
  items = trimmed maxPageSize got params
  /\ cursors cursor_column items (has_more maxPageSize got params)
             (cursor_value params) = Ok (next, prev).
Proof.
  rewrite cursor_paginate_pieces. cbn zeta.
  destruct (cursors _ _ _ _) as [[n p]|] eqn:Hc; cbn [bind]; [|discriminate].
  intros [= <- <- <-]. split; [reflexivity | exact Hc].
Qed.

Lemma falsy_cursor_first_page db query cursor_column params direction :
  truthy_opt_str (cursor_value params) = false ->
  filtered query cursor_column params direction = query
  /\ sel_where (statement maxPageSize query cursor_column params direction)
     = sel_where query
  /\ cursor_paginate maxPageSize db query cursor_column params direction
     = cursor_paginate maxPageSize db query cursor_column (no_cursor params)
                       direction
  /\ (forall items next prev,
         cursor_paginate maxPageSize db query cursor_column params direction
         = Ok (items, next, prev) -> prev = None).
Proof.
  intro H. repeat split.
  - now apply filtered_falsy.
  - unfold statement. now rewrite filtered_falsy.
  - now apply cursor_paginate_falsy.
  - intros items next prev Hr.
    apply cursor_paginate_inv in Hr. destruct Hr as [_ Hc].
    exact (cursors_previous_falsy _ _ _ _ _ _ H Hc).
Qed.


(** C10: the cursor of the empty-string key is the empty string, the
    very value [decode_cursor] gives for what it cannot read; so a
    request whose cursor is empty or decodes to the empty string is
    served exactly as the request without cursor: no inequality is
    added and [previous_cursor] is never set. *)
Theorem empty_key_cursor_is_no_cursor db query cursor_column c lim direction :
  decode_cursor c = [] ->
  let params := {| cursor := Some c; limit := lim |} in
  encode_cursor (VStr []) = Ok []
  /\ decode_cursor [] = []
  /\ filtered query cursor_column params direction = query
  /\ sel_where (statement maxPageSize query cursor_column params direction)
     = sel_where query
  /\ cursor_paginate maxPageSize db query cursor_column params direction
     = cursor_paginate maxPageSize db query cursor_column
                       {| cursor := None; limit := lim |} direction
  /\ (forall items next prev,
         cursor_paginate maxPageSize db query cursor_column params direction
         = Ok (items, next, prev) -> prev = None).
Proof.
  intros Hd params. do 2 (split; [reflexivity|]).
  apply falsy_cursor_first_page.
  now apply (cursor_value_falsy_decode params c).
Qed.

(** The rows a statement returns are rows of the session. *)
Lemma execute_incl db q : incl (execute db q) db.
Proof.
  unfold execute, apply_limit, apply_offset. intros row H.
  assert (In row (filter
            (fun row => forallb (fun c => holds c row) (sel_where q)) db))
    as Hf.
  { destruct (sel_offset q) as [o|], (sel_limit q) as [l|];
      repeat match goal with
        | H : In _ (if ?b then _ else _) |- _ => destruct b
        | H : In _ (firstn _ _) |- _ => apply firstn_incl in H
        | H : In _ (skipn _ _) |- _ => apply skipn_incl in H
        end; assumption. }
  now apply filter_In in Hf.
Qed.

Lemma trimmed_incl items params : incl (trimmed maxPageSize items params) items.
Proof.
  unfold trimmed, slice_to. intros row.
  destruct (has_more _ _ _); [|auto].
  destruct (0 <=? _); apply firstn_incl.
Qed.

(** The pager returns whenever the keys of the rows can be encoded. *)
Lemma cursor_paginate_returns db query cursor_column params direction :
  (forall row, In row db ->
               Utf8.encodable (str_of (cursor_column row)) = true) ->
  exists r, cursor_paginate maxPageSize db query cursor_column params
                            direction = Ok r.
Proof.
  intro Henc. rewrite cursor_paginate_pieces. cbv zeta.
  assert (incl (trimmed maxPageSize
                  (fetched maxPageSize db query cursor_column params direction)
                  params) db) as Hincl.
  { intros row Hin. apply trimmed_incl in Hin.
    now apply execute_incl in Hin. }
  set (got := fetched _ _ _ _ _ _) in *.
  set (page := trimmed _ got params) in *.
  assert (forall row, In row page ->
            exists c, encode_cursor (cursor_column row) = Ok c) as Hrow.
  { intros row Hin.
    apply encode_cursor_encodable, Henc, Hincl, Hin. }
  unfold cursors. destruct page as [|first rest] eqn:Hp.
  - eexists. reflexivity.
  - destruct (Hrow (last (first :: rest) first)) as [cl Hl].
    { apply last_in. discriminate. }
    destruct (Hrow first (or_introl eq_refl)) as [cf Hf].
    rewrite Hl, Hf.
    destruct (has_more _ _ _), (truthy_opt_str _); eexists; reflexivity.
Qed.

Lemma cursors_spec cursor_column items more cv next prev :
  cursors cursor_column items more cv = Ok (next, prev) ->
  (next <> None <-> more = true /\ items <> [])
  /\ (forall c, next = Some c ->
        exists init lst, items = init ++ [lst]
                         /\ encode_cursor (cursor_column lst) = Ok c)
  /\ (prev <> None <-> truthy_opt_str cv = true /\ items <> [])
  /\ (forall c, prev = Some c ->
        exists first rest, items = first :: rest
                           /\ encode_cursor (cursor_column first) = Ok c)
  /\ (items = [] -> next = None /\ prev = None).
Proof.
  unfold cursors. destruct items as [|first rest].
  { intros [= <- <-]. repeat split; try congruence; try discriminate.
    - now intros [_ H].
    - now intros [_ H]. }
  destruct (exists_last (l := first :: rest)) as [init [lst Hi]];
    [discriminate|].
  assert (last (first :: rest) first = lst) as Hlast
      by (rewrite Hi; apply last_last).
  rewrite Hlast. clear Hlast.
  destruct more, (truthy_opt_str cv);
    destruct (encode_cursor (cursor_column lst)) as [cl|] eqn:Hl;
    destruct (encode_cursor (cursor_column first)) as [cf|] eqn:Hf;
    cbn [fmap bind]; try discriminate;
    intros [= <- <-];
    (repeat split; try discriminate; try congruence;
     try (intros [? ?]; discriminate);
     try (intros c [= <-]; eauto);
     try (intros [= ]; fail)).
Qed.

(** C3 (as amended): on every page the pager returns, [next_cursor] is
    set exactly when [has_more] is true and the page is not empty, and
    is then the cursor of the last item's key; [previous_cursor] is set
    exactly when the request carried a non-empty cursor that decodes to
    a non-empty value and the page is not empty, and is then the cursor
    of the first item's key; an empty page has neither cursor. *)
Theorem cursors_of_page db query cursor_column params direction
        items next prev :
  cursor_paginate maxPageSize db query cursor_column params direction
  = Ok (items, next, prev) ->
  let more :=
    has_more maxPageSize
             (fetched maxPageSize db query cursor_column params direction)
             params in
  (next <> None <-> more = true /\ items <> [])
  /\ (forall c, next = Some c ->
        exists init lst, items = init ++ [lst]
                         /\ encode_cursor (cursor_column lst) = Ok c)
  /\ (prev <> None <->
        (exists c, cursor params = Some c /\ c <> []
                   /\ decode_cursor c <> [])
        /\ items <> [])
  /\ (forall c, prev = Some c ->
        exists first rest, items = first :: rest
                           /\ encode_cursor (cursor_column first) = Ok c)
  /\ (items = [] -> next = None /\ prev = None).
Proof.
  intros Hr more. apply cursor_paginate_inv in Hr. destruct Hr as [_ Hc].
  apply cursors_spec in Hc.
  destruct Hc as [Hn [Hnv [Hp [Hpv He]]]].
  rewrite cursor_value_truthy in Hp. auto.
Qed.

Lemma execute_limit_length db q n :
  sel_limit q = Some n -> 0 <= n -> len (execute db q) <= n.
Proof.
  intros Hl Hn. unfold execute, len. rewrite Hl. cbn [apply_limit].
  destruct (Z.ltb_spec n 0); [lia|].
  pose proof (firstn_le_length (Z.to_nat n)
    (apply_offset (sel_offset q)
       (filter (fun row => forallb (fun c => holds c row) (sel_where q)) db))).
  lia.
Qed.

Lemma fetched_length db query cursor_column params direction :
  0 <= effective_limit maxPageSize params ->
  len (fetched maxPageSize db query cursor_column params direction)
  <= effective_limit maxPageSize params + 1.
Proof.
  intro H. unfold fetched. apply execute_limit_length; [reflexivity | lia].
Qed.

Lemma trimmed_firstn items params :
  0 <= effective_limit maxPageSize params ->
  trimmed maxPageSize items params
  = firstn (Z.to_nat (effective_limit maxPageSize params)) items.
Proof.
  intro H. unfold trimmed, has_more, slice_to, len.
  destruct (Z.gtb_spec (Z.of_nat (List.length items))
                       (effective_limit maxPageSize params)).
  - destruct (Z.leb_spec 0 (effective_limit maxPageSize params));
      [reflexivity | lia].
  - symmetry. apply firstn_all2. lia.
Qed.

Lemma trimmed_length items params :
  0 <= effective_limit maxPageSize params ->
  len (trimmed maxPageSize items params) <= effective_limit maxPageSize params.
Proof.
  intro H. rewrite trimmed_firstn by assumption. unfold len.
  pose proof (firstn_le_length
                (Z.to_nat (effective_limit maxPageSize params)) items).
  lia.
Qed.

(** C2: with an effective limit [L] (not negative), the statement sent
    to the session asks for [L + 1] rows; [has_more] holds exactly when
    [L + 1] rows came back; the extra row is then dropped; the page has
    at most [L] rows and is a prefix of the rows fetched. *)
Theorem over_fetch_by_one db query cursor_column params direction :
  let L := effective_limit maxPageSize params in
  let got := fetched maxPageSize db query cursor_column params direction in
  let page := trimmed maxPageSize got params in
  0 <= L ->
  sel_limit (statement maxPageSize query cursor_column params direction)
  = Some (L + 1)
  /\ got = execute db (statement maxPageSize query cursor_column params
                                 direction)
  /\ (has_more maxPageSize got params = true <-> len got = L + 1)
  /\ (has_more maxPageSize got params = true ->
      exists extra, got = page ++ [extra])
  /\ (has_more maxPageSize got params = false -> page = got)
  /\ len page <= L
  /\ (exists rest, got = page ++ rest)
  /\ (forall items next prev,
         cursor_paginate maxPageSize db query cursor_column params direction
         = Ok (items, next, prev) -> items = page).
Proof.
  intros L got page HL.
  pose proof (fetched_length db query cursor_column params direction HL)
    as Hlen. fold got L in Hlen.
  assert (has_more maxPageSize got params = true <-> len got = L + 1) as Hm.
  { unfold has_more. fold L.
    destruct (Z.gtb_spec (len got) L); split; intros; try lia;
      try reflexivity; discriminate. }
  assert (page = firstn (Z.to_nat L) got) as Hpage
      by (apply trimmed_firstn; exact HL).
  repeat split.
  - apply Hm.
  - apply Hm.
  - intro Hmore. apply Hm in Hmore.
    pose proof (firstn_skipn (Z.to_nat L) got) as Hsplit.
    rewrite <- Hpage in Hsplit.
    assert (List.length (skipn (Z.to_nat L) got) = 1%nat) as H1.
    { rewrite length_skipn. unfold len in Hmore. lia. }
    destruct (skipn (Z.to_nat L) got) as [|extra [|? ?]]; try discriminate.
    exists extra. now symmetry.
  - unfold page, trimmed. now intros ->.
  - apply trimmed_length. exact HL.
  - exists (skipn (Z.to_nat L) got). rewrite Hpage.
    symmetry. apply firstn_skipn.
  - intros items next prev Hr.
    now apply cursor_paginate_inv in Hr.
Qed.

(** Where C5 holds: for a request whose limit is at least 1 (and a
    [maxPageSize] of at least 1), the effective limit
    [min(request.limit, maxPageSize)] is the request's limit clamped to
    [[1, maxPageSize]]; so the effective limit is at least 1 and the page
    has at most [maxPageSize] rows, also when the request asks for
    [maxPageSize + 50]. *)
Theorem effective_limit_clamped db query cursor_column params direction
        items next prev :
  1 <= limit params ->
  1 <= maxPageSize ->
  cursor_paginate maxPageSize db query cursor_column params direction
  = Ok (items, next, prev) ->
  effective_limit maxPageSize params
  = Z.max 1 (Z.min (limit params) maxPageSize)
  /\ 1 <= effective_limit maxPageSize params <= maxPageSize
  /\ (limit params = maxPageSize + 50 ->
      effective_limit maxPageSize params = maxPageSize)
  /\ len items <= effective_limit maxPageSize params
  /\ len items <= maxPageSize.
Proof.
  intros Hl Hmax Hr.
  apply cursor_paginate_inv in Hr. destruct Hr as [-> _].
  assert (0 <= effective_limit maxPageSize params) as HL
      by (unfold effective_limit; lia).
  pose proof (trimmed_length
    (fetched maxPageSize db query cursor_column params direction) params HL).
  unfold effective_limit in *. repeat split; lia.
Qed.

End CursorPagerFacts.

(** ** Integer division through binary64 *)

Section FloatFacts.
Import Float.
Local Open Scope Z_scope.

Lemma pow2_pos n : 0 <= n -> 0 < 2 ^ n.
Proof. intro H. apply Z.pow_pos_nonneg; lia. Qed.

Lemma pow2_add n m : 0 <= n -> 0 <= m -> 2 ^ (n + m) = 2 ^ n * 2 ^ m.
Proof. intros. now apply Z.pow_add_r. Qed.

(** [2 ^ p <= a / b], cross-multiplied. *)
Lemma quotient_log2_lower a b :
  0 < a -> 0 < b ->
  b * 2 ^ Z.max (quotient_log2 a b) 0
  <= a * 2 ^ Z.max (- quotient_log2 a b) 0.
Proof.
  intros Ha Hb. unfold quotient_log2.
  set (p0 := Z.log2 a - Z.log2 b).
  destruct (Z.leb_spec (b * 2 ^ Z.max p0 0) (a * 2 ^ Z.max (- p0) 0))
    as [H|H]; [exact H|].
  pose proof (Z.log2_spec a Ha) as [Ha1 Ha2].
  pose proof (Z.log2_spec b Hb) as [Hb1 Hb2].
  pose proof (Z.log2_nonneg a) as Hla. pose proof (Z.log2_nonneg b) as Hlb.
  destruct (Z.le_gt_cases 1 p0) as [Hp|Hp].
  - rewrite (Z.max_l (p0 - 1) 0), (Z.max_r (- (p0 - 1)) 0) by lia.
    rewrite Z.pow_0_r, Z.mul_1_r.
    assert (2 ^ Z.log2 a = 2 ^ Z.succ (Z.log2 b) * 2 ^ (p0 - 1)) as E.
    { rewrite <- pow2_add by lia. f_equal. lia. }
    pose proof (pow2_pos (p0 - 1)). nia.
  - rewrite (Z.max_r (p0 - 1) 0), (Z.max_l (- (p0 - 1)) 0) by lia.
    rewrite Z.pow_0_r, Z.mul_1_r.
    assert (2 ^ Z.succ (Z.log2 b) = 2 ^ Z.log2 a * 2 ^ (- (p0 - 1))) as E.
    { rewrite <- pow2_add by lia. f_equal. lia. }
    pose proof (pow2_pos (- (p0 - 1))). nia.
Qed.

Lemma quotient_log2_range a b :
  0 < a < 2 ^ 53 -> 0 < b < 2 ^ 53 ->
  -53 <= quotient_log2 a b <= 52.
Proof.
  intros Ha Hb. unfold quotient_log2.
  assert (Z.log2 a < 53) by (apply Z.log2_lt_pow2; lia).
  assert (Z.log2 b < 53) by (apply Z.log2_lt_pow2; lia).
  pose proof (Z.log2_nonneg a). pose proof (Z.log2_nonneg b).
  destruct (_ <=? _); lia.
Qed.

(** Rounding [a * T / b] to the nearest integer stays strictly above
    [(k - 1) * T] and at most [k * T], for [k] the ceiling of [a / b],
    as soon as [T] exceeds half of [b]. *)
Lemma round_half_even_ceiling a b T k :
  0 < b -> 0 < T -> b < 2 * T -> is_ceiling a b k ->
  (k - 1) * T < round_half_even (a * T) b <= k * T.
Proof.
  intros Hb HT HbT [Hk1 Hk2]. unfold round_half_even.
  pose proof (Z.div_mod (a * T) b ltac:(lia)) as Hdm.
  pose proof (Z.mod_pos_bound (a * T) b Hb) as Hr.
  set (q := a * T / b) in *. set (r := (a * T) mod b) in *.
  assert (q <= k * T) as Hq1 by nia.
  assert ((k - 1) * T <= q) as Hq2 by nia.
  destruct (Z.compare_spec (2 * r) b) as [E|E|E].
  - destruct (Z.even q); nia.
  - assert (q <> (k - 1) * T) by nia. lia.
  - assert (q <> k * T) by nia. lia.
Qed.

Lemma ceil_of_bounds m T k :
  0 < T -> (k - 1) * T < m <= k * T -> - ((- m) / T) = k.
Proof.
  intros HT H.
  assert ((- m) / T = - k) as E.
  { symmetry. apply (Z.div_unique_pos (- m) T (- k) (k * T - m)); lia. }
  lia.
Qed.

(** Below [2 ^ 53], [ceil(a / b)] is the ceiling of the exact
    quotient. *)
Lemma ceil_truediv_exact a b k :
  0 <= a < 2 ^ 53 -> 0 < b < 2 ^ 53 -> is_ceiling a b k ->
  fmap ceil (truediv a b) = Ok k.
Proof.
  intros Ha Hb Hk. unfold truediv.
  destruct (Z.eqb_spec b 0); [lia|].
  destruct (Z.eqb_spec a 0) as [->|Hnz].
  { cbn. unfold is_ceiling in Hk. f_equal. nia. }
  rewrite (Z.abs_eq a), (Z.abs_eq b) by lia.
  rewrite (Z.sgn_pos a), (Z.sgn_pos b) by lia.
  unfold divide_pos, ulp_exponent.
  pose proof (quotient_log2_range a b ltac:(lia) Hb) as Hp.
  pose proof (quotient_log2_lower a b ltac:(lia) ltac:(lia)) as Hlow.
  set (p := quotient_log2 a b) in *.
  rewrite (Z.max_l (p - 52) (-1074)) by lia.
  rewrite (Z.max_l (- (p - 52)) 0), (Z.max_r (p - 52) 0) by lia.
  rewrite Z.pow_0_r, Z.mul_1_r.
  set (T := 2 ^ (- (p - 52))).
  assert (0 < T) as HT by (apply pow2_pos; lia).
  assert (b < 2 * T) as HbT.
  { destruct (Z.le_gt_cases 0 p) as [Hp0|Hp0].
    - rewrite (Z.max_l p 0), (Z.max_r (- p) 0) in Hlow by lia.
      rewrite Z.pow_0_r, Z.mul_1_r in Hlow.
      assert (2 ^ 53 = 2 * T * 2 ^ p) as E.
      { unfold T. change 2 with (2 ^ 1) at 2.
        rewrite <- !pow2_add by lia. f_equal. lia. }
      pose proof (pow2_pos p Hp0). nia.
    - assert (2 ^ 53 <= T).
      { unfold T. apply Z.pow_le_mono_r; lia. }
      lia. }
  pose proof (round_half_even_ceiling a b T k ltac:(lia) HT HbT Hk) as Hm.
  set (m := round_half_even (a * T) b) in *.
  destruct (Z.ltb_spec 971 (p - 52)); [lia|].
  destruct (Z.eqb_spec (p - 52) 971); [lia|].
  cbn [orb andb bind fmap mant expo]. f_equal.
  unfold ceil. cbn [mant expo]. rewrite !Z.mul_1_l.
  destruct (Z.leb_spec 0 (p - 52)).
  - assert (p - 52 = 0) as E0 by lia.
    assert (T = 1) as E1 by (unfold T; rewrite E0; reflexivity).
    rewrite E0, Z.pow_0_r. lia.
  - fold T. apply ceil_of_bounds; assumption.
Qed.

End FloatFacts.

(** ** The offset calculator and the offset pager *)

Section OffsetFacts.
Import Storage OffsetPagination.
Local Open Scope Z_scope.

Context {Item : Type}.

Implicit Types (db : Session Item) (query : select Item)
         (params : OffsetPaginationParams) (items : list Item).

(** C9: for a request with [page >= 1] and [limit >= 1] the offset is
    [(page - 1) * limit]; it is never negative, and page 1 starts at
    offset 0. *)
Theorem offset_formula params :
  1 <= page params -> 1 <= limit params ->
  offset params = (page params - 1) * limit params
  /\ 0 <= offset params
  /\ (page params = 1 -> offset params = 0).
Proof.
  intros Hp Hl. unfold offset. repeat split.
  - nia.
  - intros ->. lia.
Qed.

(** Below [2 ^ 53] the metadata is exact: [total_pages] is the ceiling
    of [total_items / limit], [has_next] is [page < total_pages] and
    [has_previous] is [page > 1]. *)
Lemma create_pagination_response_exact items total page_no lim k :
  0 <= total < 2 ^ 53 -> 1 <= lim < 2 ^ 53 ->
  Float.is_ceiling total lim k ->
  create_pagination_response items total page_no lim
  = Ok {| data := items;
          pagination :=
            {| current_page := page_no;
               page_size := lim;
               total_items := total;
               total_pages := k;
               has_next := page_no <? k;
               has_previous := page_no >? 1 |} |}.
Proof.
  intros Ht Hl Hk. unfold create_pagination_response, compute_total_pages.
  destruct (Z.gtb_spec lim 0); [|lia].
  rewrite (ceil_truediv_exact total lim k) by (assumption || lia).
  reflexivity.
Qed.

(** No items: no pages and no next page. *)
Lemma create_pagination_response_empty items page_no lim :
  1 <= page_no -> 1 <= lim < 2 ^ 53 ->
  create_pagination_response items 0 page_no lim
  = Ok {| data := items;
          pagination :=
            {| current_page := page_no;
               page_size := lim;
               total_items := 0;
               total_pages := 0;
               has_next := false;
               has_previous := page_no >? 1 |} |}.
Proof.
  intros Hp Hl.
  rewrite (create_pagination_response_exact items 0 page_no lim 0)
    by (unfold Float.is_ceiling; lia).
  destruct (Z.ltb_spec page_no 0); [lia | reflexivity].
Qed.

(** The rows of an unwindowed statement, page by page. *)
Lemma execute_paginated db query params :
  sel_offset query = None -> sel_limit query = None ->
  0 <= limit params ->
  execute db (paginated_query query params)
  = firstn (Z.to_nat (limit params))
           (skipn (Z.to_nat (offset params)) (execute db query)).
Proof.
  intros Ho Hl Hlim. unfold execute, paginated_query.
  cbn [limit_ offset_ sel_where sel_offset sel_limit apply_limit apply_offset].
  rewrite Ho, Hl. cbn [apply_limit apply_offset].
  destruct (Z.ltb_spec (limit params) 0); [lia | reflexivity].
Qed.

Lemma or_zero_count n : or_zero (Some n) = n.
Proof. unfold or_zero. destruct (Z.eqb_spec n 0); congruence. Qed.


End OffsetFacts.

(** ** The pagers on the sample table *)

Section Runs.
Import Storage Codec CursorPagination Sample.
Local Open Scope Z_scope.



Lemma empty_key_cursor_is_no_cursor_witness :
  decode_cursor (str_lit "====") = []
  /\ encode_cursor (VStr []) = Ok []
  /\ cursor_paginate 100 users all_users user_key
       {| cursor := Some (str_lit "===="); limit := 10 |} "forward"
     = cursor_paginate 100 users all_users user_key
         {| cursor := None; limit := 10 |} "forward".
Proof.
  split; [reflexivity|].
  destruct (empty_key_cursor_is_no_cursor 100 users all_users user_key
              (str_lit "====") 10 "forward" eq_refl)
    as [He [_ [_ [_ [Hp _]]]]].
  split; [exact He | exact Hp].
Defined.

Lemma cursors_of_page_witness :
  cursor_paginate 100 users all_users user_key
    {| cursor := Some (str_lit "MTA="); limit := 10 |} "forward"
  = Ok (users_of [11; 12; 13; 14; 15; 16; 17; 18; 19; 20],
        Some (str_lit "MjA="), Some (str_lit "MTE="))
  /\ (Some (str_lit "MTE=") <> None <->
      (exists c, Some (str_lit "MTA=") = Some c /\ c <> []
                 /\ decode_cursor c <> [])
      /\ users_of [11; 12; 13; 14; 15; 16; 17; 18; 19; 20] <> []).
Proof.
  assert (cursor_paginate 100 users all_users user_key
            {| cursor := Some (str_lit "MTA="); limit := 10 |} "forward"
          = Ok (users_of [11; 12; 13; 14; 15; 16; 17; 18; 19; 20],
                Some (str_lit "MjA="), Some (str_lit "MTE="))) as Hr
      by reflexivity.
  split; [exact Hr|].
  destruct (cursors_of_page 100 users all_users user_key _ "forward" _ _ _ Hr)
    as [_ [_ [Hp _]]].
  exact Hp.
Defined.

Lemma over_fetch_by_one_witness :
  0 <= effective_limit 100 {| cursor := None; limit := 10 |}
  /\ sel_limit (statement 100 all_users user_key
                          {| cursor := None; limit := 10 |} "forward")
     = Some 11
  /\ len (trimmed 100
            (fetched 100 users all_users user_key
                     {| cursor := None; limit := 10 |} "forward")
            {| cursor := None; limit := 10 |}) <= 10.
Proof.
  assert (0 <= effective_limit 100 {| cursor := None; limit := 10 |}) as HL
      by (vm_compute; discriminate).
  split; [exact HL|].
  destruct (over_fetch_by_one 100 users all_users user_key
              {| cursor := None; limit := 10 |} "forward" HL)
    as [Hs [_ [_ [_ [_ [Hlen _]]]]]].
  split; [exact Hs | exact Hlen].
Defined.

Lemma effective_limit_clamped_witness :
  exists items next prev,
    cursor_paginate 10 users all_users user_key
      {| cursor := None; limit := 10 + 50 |} "forward"
    = Ok (items, next, prev)
    /\ effective_limit 10 {| cursor := None; limit := 10 + 50 |} = 10
    /\ len items <= 10.
Proof.
  exists (users_of [1; 2; 3; 4; 5; 6; 7; 8; 9; 10]),
    (Some (str_lit "MTA=")), None.
  assert (cursor_paginate 10 users all_users user_key
            {| cursor := None; limit := 10 + 50 |} "forward"
          = Ok (users_of [1; 2; 3; 4; 5; 6; 7; 8; 9; 10],
                Some (str_lit "MTA="), None)) as Hr by reflexivity.
  split; [exact Hr|].
  destruct (effective_limit_clamped 10 users all_users user_key
              {| cursor := None; limit := 10 + 50 |} "forward" _ _ _
              ltac:(cbn; lia) ltac:(lia) Hr)
    as [_ [_ [Hm [_ Hlen]]]].
  split; [apply Hm; reflexivity | exact Hlen].
Defined.

(** C2 (as stated) fails on a negative limit: with a limit of -1 the
    statement asks for no row, [has_more] is true with nothing to drop,
    and the empty page does not have "at most -1" rows. *)
Lemma negative_limit_over_fetch :
  effective_limit 100 {| cursor := None; limit := -1 |} = -1
  /\ sel_limit (statement 100 all_users user_key
                          {| cursor := None; limit := -1 |} "forward")
     = Some 0
  /\ fetched 100 users all_users user_key
             {| cursor := None; limit := -1 |} "forward" = []
  /\ has_more 100 (@nil User) {| cursor := None; limit := -1 |} = true
  /\ cursor_paginate 100 users all_users user_key
                     {| cursor := None; limit := -1 |} "forward"
     = Ok ([], None, None)
  /\ ~ (forall params items next prev,
          cursor_paginate 100 users all_users user_key params "forward"
          = Ok (items, next, prev) ->
          len items <= effective_limit 100 params).
Proof.
  repeat split. intro H.
  specialize (H {| cursor := None; limit := -1 |} _ _ _ eq_refl).
  cbn in H. lia.
Qed.

(** C3 (as stated) fails: a request that carries a cursor the decoder
    cannot read gets a page with items and no [previous_cursor]. *)
Lemma previous_cursor_needs_readable_cursor :
  cursor_paginate 100 users all_users user_key
    {| cursor := Some (str_lit "not-valid-base64!!"); limit := 10 |}
    "forward"
  = Ok (users_of [1; 2; 3; 4; 5; 6; 7; 8; 9; 10],
        Some (str_lit "MTA="), None)
  /\ ~ (forall params items next prev,
          cursor_paginate 100 users all_users user_key params "forward"
          = Ok (items, next, prev) ->
          (prev <> None <-> cursor params <> None /\ items <> [])).
Proof.
  split; [reflexivity|]. intro H.
  specialize (H {| cursor := Some (str_lit "not-valid-base64!!");
                   limit := 10 |} _ _ _ eq_refl).
  destruct H as [_ H]. apply H; [|reflexivity].
  split; discriminate.
Qed.

(** A limit of 0 is not raised to 1 either: the effective limit is
    0. *)
Lemma effective_limit_not_raised :
  effective_limit 100 {| cursor := None; limit := 0 |} = 0
  /\ ~ (forall maxPageSize params,
          1 <= maxPageSize ->
          1 <= effective_limit maxPageSize params <= maxPageSize).
Proof.
  split; [reflexivity|]. intro H.
  specialize (H 100 {| cursor := None; limit := 0 |} ltac:(lia)).
  cbn in H. lia.
Qed.

(** A negative limit, on a storage engine for which a negative LIMIT
    means no limit: the page outgrows [maxPageSize]. *)
Example negative_limit_page :
  fmap (fun r => len (fst (fst r)))
       (cursor_paginate 2 users all_users user_key
                        {| cursor := None; limit := -2 |} "forward")
  = Ok 21.
Proof. reflexivity. Qed.

(** C5 fails on the code for a limit below 1: [min] caps the limit from
    above only, and nothing raises it to 1.  With [maxPageSize = 2] and
    a limit of -2 the statement carries [LIMIT -1], which the engine
    reads as no limit; 23 rows come back, [items[:-2]] keeps 21 of them,
    and the page is more than ten times [maxPageSize]. *)
Theorem limit_below_one_not_clamped :
  effective_limit 2 {| cursor := None; limit := -2 |} = -2
  /\ sel_limit (statement 2 all_users user_key
                          {| cursor := None; limit := -2 |} "forward")
     = Some (-1)
  /\ cursor_paginate 2 users all_users user_key
                     {| cursor := None; limit := -2 |} "forward"
     = Ok (users_of [1; 2; 3; 4; 5; 6; 7; 8; 9; 10; 11; 12; 13; 14; 15;
                     16; 17; 18; 19; 20; 21],
           Some (str_lit "MjE="), None)
  /\ ~ (forall params items next prev,
          cursor_paginate 2 users all_users user_key params "forward"
          = Ok (items, next, prev) ->
          1 <= effective_limit 2 params /\ len items <= 2).
Proof.
  split; [reflexivity|]. split; [reflexivity|]. split; [reflexivity|].
  intro H.
  destruct (H {| cursor := None; limit := -2 |} _ _ _ eq_refl) as [H1 _].
  cbn in H1. lia.
Qed.

(** C7: keys 1 to 23, limit 10, forward.  The first call (no cursor)
    returns keys 1 to 10, the cursor of 10 as [next_cursor] and no
    [previous_cursor]; the second call, with that cursor, returns keys
    11 to 20, the cursor of 20 and, as [previous_cursor], the cursor of
    11; the third call returns keys 21 to 23 and [has_next] is false. *)
Theorem forward_scenario maxPageSize :
  10 <= maxPageSize ->
  let call cur :=
    cursor_paginate maxPageSize users all_users user_key
                    {| cursor := cur; limit := 10 |} "forward" in
  encode_cursor (VInt 10) = Ok (str_lit "MTA=")
  /\ encode_cursor (VInt 20) = Ok (str_lit "MjA=")
  /\ encode_cursor (VInt 11) = Ok (str_lit "MTE=")
  /\ call None
     = Ok (users_of [1; 2; 3; 4; 5; 6; 7; 8; 9; 10],
           Some (str_lit "MTA="), None)
  /\ call (Some (str_lit "MTA="))
     = Ok (users_of [11; 12; 13; 14; 15; 16; 17; 18; 19; 20],
           Some (str_lit "MjA="), Some (str_lit "MTE="))
  /\ call (Some (str_lit "MjA="))
     = Ok (users_of [21; 22; 23], None, Some (str_lit "MjE="))
  /\ fmap (fun r => has_next (respond r)) (call (Some (str_lit "MjA=")))
     = Ok false.
Proof.
  intros Hmax call. unfold call.
  unfold cursor_paginate.
  cbn [limit]. rewrite (Z.min_l 10 maxPageSize) by exact Hmax.
  repeat split; reflexivity.
Qed.

Lemma forward_scenario_witness :
  cursor_paginate 100 users all_users user_key
                  {| cursor := Some (str_lit "MTA="); limit := 10 |}
                  "forward"
  = Ok (users_of [11; 12; 13; 14; 15; 16; 17; 18; 19; 20],
        Some (str_lit "MjA="), Some (str_lit "MTE=")).
Proof.
  destruct (forward_scenario 100 ltac:(lia)) as [_ [_ [_ [_ [H _]]]]].
  exact H.
Defined.

End Runs.

Section OffsetRuns.
Import Storage OffsetPagination Sample.
Local Open Scope Z_scope.

Lemma offset_formula_witness :
  offset {| page := 3; limit := 10 |} = (3 - 1) * 10
  /\ 0 <= offset {| page := 3; limit := 10 |}.
Proof.
  destruct (offset_formula {| page := 3; limit := 10 |}
              ltac:(cbn; lia) ltac:(cbn; lia)) as [H1 [H2 _]].
  split; [exact H1 | exact H2].
Defined.



(** C4 fails on the code for counts of [2 ^ 53] and more: the quotient
    is rounded to binary64 before [ceil].  With 9007199254740993 items
    and a limit of 1, [total_pages] is 9007199254740992 (the ceiling is
    9007199254740993), and on page 9007199254740992 [has_next] is
    false. *)
Theorem total_pages_rounded_in_binary64 :
  create_pagination_response (@nil User)
                             9007199254740993 9007199254740992 1
  = Ok {| data := [];
          pagination :=
            {| current_page := 9007199254740992;
               page_size := 1;
               total_items := 9007199254740993;
               total_pages := 9007199254740992;
               has_next := false;
               has_previous := true |} |}
  /\ Float.is_ceiling 9007199254740993 1 9007199254740993
  /\ (9007199254740992 <? 9007199254740993) = true.
Proof.
  split; [vm_compute; reflexivity|].
  split; [unfold Float.is_ceiling; lia | reflexivity].
Qed.

(** The scenario of the specification: 25 items, 10 per page. *)
Example three_pages :
  map (fun p => fmap (fun r => (total_pages (pagination r),
                               has_next (pagination r),
                               has_previous (pagination r)))
                     (create_pagination_response (@nil User) 25 p 10))
      [1; 2; 3]
  = [Ok (3, true, false); Ok (3, true, true); Ok (3, false, true)].
Proof. reflexivity. Qed.

End OffsetRuns.

Example encode_cursor_10 : Codec.encode_cursor (VInt 10) = Ok (str_lit "MTA=").
Proof. reflexivity. Qed.

Example decode_cursor_10 : Codec.decode_cursor (str_lit "MTA=") = str_lit "10".
Proof. reflexivity. Qed.

Example decode_cursor_bad :
  Codec.decode_cursor (str_lit "not-valid-base64!!") = [].
Proof. reflexivity. Qed.

(** Bytes outside the alphabet are skipped, not rejected. *)
Example decode_cursor_skips_foreign_bytes :
  Codec.decode_cursor (str_lit "M TA=") = str_lit "10".
Proof. reflexivity. Qed.

Example truediv_25_10 :
  fmap Float.ceil (Float.truediv 25 10) = Ok 3%Z.
Proof. reflexivity. Qed.

Example truediv_big :
  fmap Float.ceil (Float.truediv 9007199254740993 1) = Ok 9007199254740992%Z.
Proof. vm_compute. reflexivity. Qed.

Example truediv_third :
  Float.truediv 1 3 = Ok (Float.Float 6004799503160661 (-54)).
Proof. vm_compute. reflexivity. Qed.

(** * Further properties of the cursor codec *)

Section CodecMore.
Import Codec.
Local Open Scope N_scope.

(** The encoder on a string, case by case. *)
Lemma encode_app s t :
  Utf8.encode (s ++ t)
  = (r1 <- Utf8.encode s ;; r2 <- Utf8.encode t ;; Ok (r1 ++ r2)).
Proof.
  induction s as [|c s IH]; cbn [app Utf8.encode bind].
  - destruct (Utf8.encode t); reflexivity.
  - destruct (Utf8.encode_char c) as [b|]; cbn [bind]; [|reflexivity].
    rewrite IH. destruct (Utf8.encode s) as [r1|]; cbn [bind]; [|reflexivity].
    destruct (Utf8.encode t) as [r2|]; cbn [bind]; [|reflexivity].
    now rewrite app_assoc.
Qed.

(** What a cursor is, and what it decodes to. *)
Lemma encode_cursor_inv x c :
  encode_cursor x = Ok c ->
  exists raw, Utf8.encode (str_of x) = Ok raw
              /\ c = map N_of_ascii (Base64.b64encode raw)
              /\ decode_cursor c = str_of x.
Proof.
  intro H. unfold encode_cursor in H.
  destruct (Utf8.encode (str_of x)) as [raw|] eqn:Hraw; [|discriminate].
  cbn [bind] in H.
  rewrite (decode_ascii _ (b64encode_ascii raw)) in H.
  apply Ok_inj in H. subst c. exists raw. repeat split.
  apply decode_cursor_b64. now apply decode_encode.
Qed.

(** X1: two keys get the same cursor exactly when they have the same
    text; so a cursor tells keys apart as far as [str()] does, and no
    further. *)
Theorem encode_cursor_same_text x y c :
  encode_cursor x = Ok c ->
  (encode_cursor y = Ok c <-> str_of y = str_of x).
Proof.
  intro Hx. split.
  - intro Hy.
    destruct (encode_cursor_inv _ _ Hx) as [_ [_ [_ Hdx]]].
    destruct (encode_cursor_inv _ _ Hy) as [_ [_ [_ Hdy]]].
    congruence.
  - intro E. unfold encode_cursor in *. now rewrite E.
Qed.

Lemma encode_cursor_same_text_witness :
  encode_cursor (VStr (str_lit "10")) = Ok (str_lit "MTA=")
  <-> str_of (VStr (str_lit "10")) = str_of (VInt 10).
Proof.
  apply (encode_cursor_same_text (VInt 10) (VStr (str_lit "10"))).
  reflexivity.
Defined.

Lemma encodable_surrogates (s : str) :
  Forall (fun c => (c <= 0x10FFFF)%N) s ->
  (Utf8.encodable s = true
   <-> Forall (fun c => Utf8.is_surrogate c = false) s)
  /\ (Utf8.encodable s = false
      <-> Exists (fun c => Utf8.is_surrogate c = true) s).
Proof.
  induction 1 as [|c s Hc _ IH]; cbn [Utf8.encodable forallb].
  - repeat split; try discriminate; auto. intro H. inversion H.
  - fold (Utf8.encodable s). destruct IH as [IHt IHf].
    unfold Utf8.scalar_value.
    destruct (N.ltb_spec c 0x110000) as [_|Hge]; [|lia]. cbn [andb].
    destruct (Utf8.is_surrogate c) eqn:Hs; cbn [negb andb].
    + repeat split; try discriminate.
      * intro H. inversion H; congruence.
      * intros _. now left.
    + split.
      * rewrite IHt. split; [now constructor|].
        intro H. now inversion H.
      * rewrite IHf. split; [now right|].
        intro H. inversion H; [congruence | assumption].
Qed.

(** X2: for a text key (code points up to 0x10FFFF, as every Python
    string has them), [encode_cursor] returns a cursor exactly when the
    key holds no surrogate, and raises UnicodeEncodeError exactly when
    it holds one. *)
Theorem encode_cursor_raises (s : str) :
  Forall (fun c => (c <= 0x10FFFF)%N) s ->
  (Forall (fun c => Utf8.is_surrogate c = false) s
   <-> exists c, encode_cursor (VStr s) = Ok c)
  /\ (Exists (fun c => Utf8.is_surrogate c = true) s
      <-> encode_cursor (VStr s) = Raise UnicodeEncodeError).
Proof.
  intro Hr. destruct (encodable_surrogates s Hr) as [Ht Hf].
  rewrite <- Ht, <- Hf.
  pose proof (encode_spec s) as H. unfold encode_cursor. cbn [str_of].
  destruct (Utf8.encodable s).
  - destruct H as [raw Hraw]. rewrite Hraw. cbn [bind].
    rewrite (decode_ascii _ (b64encode_ascii raw)).
    repeat split; try discriminate; try reflexivity.
    intros _. eexists; reflexivity.
  - rewrite H. cbn [bind].
    repeat split; try discriminate; try reflexivity.
    intros [c Hc]. discriminate Hc.
Qed.

Lemma encode_cursor_raises_witness :
  encode_cursor (VStr [97; 0xD800]%N) = Raise UnicodeEncodeError.
Proof.
  apply (encode_cursor_raises [97; 0xD800]%N).
  - repeat constructor; cbn; lia.
  - right. left. reflexivity.
Defined.

Lemma b2a_alphabet n : n < 64 -> Base64.a2b (Base64.b2a n) <> None.
Proof. intro H. rewrite (a2b_b2a _ H). discriminate. Qed.

Lemma b64encode_chars bs :
  Forall (fun b => Base64.a2b b <> None \/ b = Base64.pad)
         (Base64.b64encode bs).
Proof.
  induction bs as [| x | x y | x y z r IH] using list_ind3;
    cbn [Base64.b64encode];
    try pose proof (byte_bounded x); try pose proof (byte_bounded y);
    try pose proof (byte_bounded z);
    repeat (apply Forall_cons;
            [first [left; apply b2a_alphabet; n_arith | right; reflexivity]|]);
    first [apply Forall_nil | exact IH].
Qed.

Lemma b64encode_length bs :
  List.length (Base64.b64encode bs) = (4 * ((List.length bs + 2) / 3))%nat.
Proof.
  induction bs as [| x | x y | x y z r IH] using list_ind3;
    cbn [Base64.b64encode List.length]; try reflexivity.
  rewrite IH.
  replace (S (S (S (List.length r))) + 2)%nat
    with (List.length r + 2 + 1 * 3)%nat by lia.
  rewrite Nat.div_add by lia. lia.
Qed.

(** X3: a cursor is made of characters of the base64 alphabet and of
    [=] only, and has four characters for every three bytes (started) of
    the key's UTF-8 text. *)
Theorem encode_cursor_shape x c :
  encode_cursor x = Ok c ->
  exists raw,
    Utf8.encode (str_of x) = Ok raw
    /\ List.length c = (4 * ((List.length raw + 2) / 3))%nat
    /\ Forall (fun ch => ch < 128
                         /\ (Base64.a2b (ascii_of_N ch) <> None
                             \/ ch = N_of_ascii Base64.pad)) c.
Proof.
  intro H. destruct (encode_cursor_inv _ _ H) as [raw [Hraw [-> _]]].
  exists raw. repeat split; [exact Hraw | |].
  - now rewrite length_map, b64encode_length.
  - apply Forall_map.
    pose proof (b64encode_chars raw) as Hc.
    pose proof (b64encode_ascii raw) as Ha.
    rewrite Forall_forall in *. intros b Hb. split; [now apply Ha|].
    rewrite ascii_N_embedding.
    destruct (Hc b Hb) as [H1 | ->]; [now left | now right].
Qed.

Lemma encode_cursor_shape_witness :
  exists raw,
    Utf8.encode (str_of (VInt 2024)) = Ok raw
    /\ List.length (str_lit "MjAyNA==") = (4 * ((List.length raw + 2) / 3))%nat
    /\ Forall (fun ch => ch < 128
                         /\ (Base64.a2b (ascii_of_N ch) <> None
                             \/ ch = N_of_ascii Base64.pad))
              (str_lit "MjAyNA==").
Proof.
  apply (encode_cursor_shape (VInt 2024) (str_lit "MjAyNA==")).
  reflexivity.
Defined.

(** The decoder's loop skips a byte that is neither of the alphabet nor
    [=], wherever it stands. *)
Lemma a2b_loop_skip s1 b s2 : forall qp lc pd out,
  Base64.a2b b = None -> b <> Base64.pad ->
  Base64.a2b_loop (s1 ++ b :: s2) qp lc pd out
  = Base64.a2b_loop (s1 ++ s2) qp lc pd out.
Proof.
  induction s1 as [|ch s1 IH]; intros qp lc pd out Hb Hp.
  - cbn [app Base64.a2b_loop].
    apply Ascii.eqb_neq in Hp. rewrite Hp, Hb. reflexivity.
  - cbn [app Base64.a2b_loop].
    destruct (Ascii.eqb ch Base64.pad).
    + destruct (2 <=? qp); [destruct (4 <=? qp + (pd + 1))|];
        try reflexivity; now apply IH.
    + destruct (Base64.a2b ch) as [v|]; [|now apply IH].
      destruct (qp =? 0); [now apply IH|].
      destruct (qp =? 1); [now apply IH|].
      destruct (qp =? 2); now apply IH.
Qed.

(** X4: [decode_cursor] does not see an ASCII character that is neither
    of the base64 alphabet nor [=] (a space, a line break, [-], [!]):
    the cursor decodes as it does without it. *)
Theorem decode_cursor_skips_foreign c1 ch c2 :
  ch < 128 ->
  Base64.a2b (ascii_of_N ch) = None ->
  ch <> N_of_ascii Base64.pad ->
  decode_cursor (c1 ++ ch :: c2) = decode_cursor (c1 ++ c2).
Proof.
  intros Hch Ha Hp. unfold decode_cursor.
  change (ch :: c2) with ([ch] ++ c2).
  rewrite !encode_app.
  destruct (Utf8.encode c1) as [r1|]; cbn [bind]; [|reflexivity].
  assert (Utf8.encode [ch] = Ok [ascii_of_N ch]) as ->.
  { cbn [Utf8.encode]. unfold Utf8.encode_char.
    destruct (N.ltb_spec ch 0x80); [reflexivity | lia]. }
  cbn [bind].
  destruct (Utf8.encode c2) as [r2|]; cbn [bind app]; [|reflexivity].
  unfold Base64.b64decode. rewrite a2b_loop_skip; [reflexivity | exact Ha |].
  intro E. apply Hp. rewrite <- E. now rewrite N_ascii_embedding by lia.
Qed.

Lemma decode_cursor_skips_foreign_witness :
  decode_cursor (str_lit "MT" ++ 10 :: str_lit "A=")
  = decode_cursor (str_lit "MT" ++ str_lit "A=").
Proof.
  apply (decode_cursor_skips_foreign (str_lit "MT") 10 (str_lit "A="));
    [reflexivity | reflexivity | discriminate].
Defined.

(** The strict decoder yields scalar values only. *)
Lemma decode_encodable_len n : forall bs s,
  (List.length bs <= n)%nat ->
  Utf8.decode bs = Ok s -> Utf8.encodable s = true.
Proof.
  induction n as [|n IH]; intros bs s Hlen.
  - destruct bs; [|cbn in Hlen; lia]. cbn. now intros [= <-].
  - destruct bs as [|b0 r0]; [cbn; now intros [= <-]|].
    cbn [Utf8.decode]. cbn [List.length] in Hlen.
    assert (forall c r, (List.length r <= n)%nat ->
              Utf8.scalar_value c = true ->
              fmap (cons c) (Utf8.decode r) = Ok s ->
              Utf8.encodable s = true) as Hstep.
    { intros c r Hr Hc. destruct (Utf8.decode r) as [s'|] eqn:Hd;
        cbn [fmap bind]; [|discriminate].
      intros [= <-]. cbn [Utf8.encodable forallb]. rewrite Hc.
      exact (IH _ _ Hr Hd). }
    pose proof (byte_bounded b0) as Hb0.
    destruct (N.ltb_spec (N_of_ascii b0) 0x80).
    { apply Hstep; [lia|]. unfold Utf8.scalar_value, Utf8.is_surrogate.
      destruct (N.ltb_spec (N_of_ascii b0) 0x110000); [|lia].
      destruct (N.leb_spec 0xD800 (N_of_ascii b0)); [lia | reflexivity]. }
    destruct (N.ltb_spec (N_of_ascii b0) 0xC2); [discriminate|].
    destruct (N.ltb_spec (N_of_ascii b0) 0xE0).
    { destruct r0 as [|b1 r1]; [discriminate|].
      pose proof (byte_bounded b1).
      destruct (Utf8.is_cont b1); [|discriminate].
      apply Hstep; [cbn [List.length] in Hlen; lia|].
      unfold Utf8.scalar_value, Utf8.is_surrogate, Utf8.cont.
      destruct (N.ltb_spec ((N_of_ascii b0 - 0xC0) * 64
                            + (N_of_ascii b1 - 0x80)) 0x110000); [|lia].
      destruct (N.leb_spec 0xD800 ((N_of_ascii b0 - 0xC0) * 64
                                   + (N_of_ascii b1 - 0x80)));
        [lia | reflexivity]. }
    destruct (N.ltb_spec (N_of_ascii b0) 0xF0).
    { destruct r0 as [|b1 [|b2 r2]]; try discriminate.
      pose proof (byte_bounded b1). pose proof (byte_bounded b2).
      set (c := (N_of_ascii b0 - 0xE0) * 4096 + Utf8.cont b1 * 64
                + Utf8.cont b2).
      destruct (Utf8.is_cont b1 && Utf8.is_cont b2 && negb (c <? 0x800)
                && negb (Utf8.is_surrogate c)) eqn:Hcond; [|discriminate].
      apply andb_prop in Hcond. destruct Hcond as [_ Hsur].
      apply Hstep; [cbn [List.length] in Hlen; lia|].
      unfold Utf8.scalar_value. rewrite Hsur, andb_true_r.
      apply N.ltb_lt. unfold c, Utf8.cont. lia. }
    destruct (N.ltb_spec (N_of_ascii b0) 0xF5); [|discriminate].
    destruct r0 as [|b1 [|b2 [|b3 r3]]]; try discriminate.
    set (c := (N_of_ascii b0 - 0xF0) * 262144 + Utf8.cont b1 * 4096
              + Utf8.cont b2 * 64 + Utf8.cont b3).
    destruct (Utf8.is_cont b1 && Utf8.is_cont b2 && Utf8.is_cont b3
              && negb (c <? 0x10000) && (c <? 0x110000)) eqn:Hcond;
      [|discriminate].
    apply andb_prop in Hcond. destruct Hcond as [Hcond Hhi].
    apply andb_prop in Hcond. destruct Hcond as [_ Hlo].
    apply Hstep; [cbn [List.length] in Hlen; lia|].
    unfold Utf8.scalar_value, Utf8.is_surrogate. rewrite Hhi. cbn [andb].
    apply negb_true_iff, N.ltb_ge in Hlo.
    destruct (N.leb_spec 0xD800 c); [|reflexivity].
    destruct (N.leb_spec c 0xDFFF); [lia | reflexivity].
Qed.

Lemma decode_cursor_encodable c : Utf8.encodable (decode_cursor c) = true.
Proof.
  destruct (decode_cursor_total c) as [-> | [raw [payload [_ [_ H]]]]];
    [reflexivity|].
  exact (decode_encodable_len _ _ _ (le_n _) H).
Qed.

(** X5: what [decode_cursor] returns, for any string at all, can be
    encoded again, and the cursor made of it decodes to the same value:
    [decode_cursor(encode_cursor(decode_cursor(c))) == decode_cursor(c)]. *)
Theorem decode_cursor_reencodes c :
  Utf8.encodable (decode_cursor c) = true
  /\ exists c', encode_cursor (VStr (decode_cursor c)) = Ok c'
                /\ decode_cursor c' = decode_cursor c.
Proof.
  pose proof (decode_cursor_encodable c) as He. split; [exact He|].
  destruct (encode_cursor_encodable (VStr (decode_cursor c)) He) as [c' Hc'].
  exists c'. split; [exact Hc'|].
  destruct (encode_cursor_inv _ _ Hc') as [_ [_ [_ Hd]]]. exact Hd.
Qed.

(** After a group that ends in padding the decoder reads no further. *)
Lemma a2b_loop_b64encode_padded bs : forall t lc pd out,
  (List.length bs mod 3 <> 0)%nat ->
  Base64.a2b_loop (Base64.b64encode bs ++ t) 0 lc pd out = Ok (rev out ++ bs).
Proof.
  induction bs as [| x | x y | x y z r IH] using list_ind3;
    intros t lc pd out Hlen.
  - cbn in Hlen. lia.
  - pose proof (byte_bounded x) as Hx.
    cbn [Base64.b64encode app].
    rewrite a2b_loop_sextet by n_arith. cbn [N.eqb].
    rewrite a2b_loop_sextet by n_arith. cbn [N.eqb Pos.eqb].
    rewrite !a2b_loop_pad. cbn.
    replace (N_of_ascii x / 4 * 4 + N_of_ascii x mod 4 * 16 / 16)
      with (N_of_ascii x) by n_arith.
    now rewrite ascii_N_embedding.
  - pose proof (byte_bounded x) as Hx. pose proof (byte_bounded y) as Hy.
    cbn [Base64.b64encode app].
    rewrite a2b_loop_sextet by n_arith. cbn [N.eqb].
    rewrite a2b_loop_sextet by n_arith. cbn [N.eqb Pos.eqb].
    rewrite a2b_loop_sextet by n_arith. cbn [N.eqb Pos.eqb].
    rewrite a2b_loop_pad. cbn.
    replace (N_of_ascii x / 4 * 4
             + (N_of_ascii x mod 4 * 16 + N_of_ascii y / 16) / 16)
      with (N_of_ascii x) by n_arith.
    replace ((N_of_ascii x mod 4 * 16 + N_of_ascii y / 16) mod 16 * 16
             + N_of_ascii y mod 16 * 4 / 4)
      with (N_of_ascii y) by n_arith.
    rewrite !ascii_N_embedding. rewrite <- !app_assoc. reflexivity.
  - pose proof (byte_bounded x) as Hx. pose proof (byte_bounded y) as Hy.
    pose proof (byte_bounded z) as Hz.
    assert (List.length r mod 3 <> 0)%nat as Hr.
    { cbn [List.length] in Hlen.
      replace (S (S (S (List.length r)))) with (List.length r + 1 * 3)%nat
        in Hlen by lia.
      now rewrite Nat.Div0.mod_add in Hlen. }
    cbn [Base64.b64encode app].
    rewrite a2b_loop_sextet by n_arith. cbn [N.eqb].
    rewrite a2b_loop_sextet by n_arith. cbn [N.eqb Pos.eqb].
    rewrite a2b_loop_sextet by n_arith. cbn [N.eqb Pos.eqb].
    rewrite a2b_loop_sextet by n_arith. cbn [N.eqb Pos.eqb].
    rewrite IH by exact Hr. cbn [rev].
    replace (N_of_ascii x / 4 * 4
             + (N_of_ascii x mod 4 * 16 + N_of_ascii y / 16) / 16)
      with (N_of_ascii x) by n_arith.
    replace ((N_of_ascii x mod 4 * 16 + N_of_ascii y / 16) mod 16 * 16
             + (N_of_ascii y mod 16 * 4 + N_of_ascii z / 64) / 4)
      with (N_of_ascii y) by n_arith.
    replace ((N_of_ascii y mod 16 * 4 + N_of_ascii z / 64) mod 4 * 64
             + N_of_ascii z mod 64)
      with (N_of_ascii z) by n_arith.
    rewrite !ascii_N_embedding. rewrite <- !app_assoc. reflexivity.
Qed.

(** X6: when the UTF-8 text of a key does not fill whole groups of three
    bytes (its cursor ends in [=]), [decode_cursor] reads the cursor
    followed by any further text as the cursor alone. *)
Theorem decode_cursor_ignores_tail x c raw tail :
  encode_cursor x = Ok c ->
  Utf8.encode (str_of x) = Ok raw ->
  (List.length raw mod 3 <> 0)%nat ->
  Utf8.encodable tail = true ->
  decode_cursor (c ++ tail) = str_of x.
Proof.
  intros Hc Hraw Hlen Htail.
  destruct (encode_cursor_inv _ _ Hc) as [raw' [Hraw' [-> _]]].
  assert (raw' = raw) as -> by congruence.
  unfold decode_cursor. rewrite encode_app.
  rewrite (encode_ascii _ (b64encode_ascii raw)). cbn [bind].
  destruct (encode_encodable _ Htail) as [rt ->]. cbn [bind].
  unfold Base64.b64decode.
  rewrite a2b_loop_b64encode_padded by exact Hlen. cbn [rev app bind].
  now rewrite (decode_encode _ _ Hraw).
Qed.

Lemma decode_cursor_ignores_tail_witness :
  decode_cursor (str_lit "MTA=" ++ str_lit "OTk5") = str_of (VInt 10).
Proof.
  apply (decode_cursor_ignores_tail (VInt 10) (str_lit "MTA=")
                                    (bytes_lit "10") (str_lit "OTk5"));
    [reflexivity | reflexivity | discriminate | reflexivity].
Defined.

End CodecMore.

(** * Further properties of the cursor pager *)

Section CursorPagerMore.
Import Storage Codec CursorPagination.
Local Open Scope Z_scope.

Context {Item : Type}.
Variable maxPageSize : Z.

Implicit Types (db : Session Item) (query : select Item)
         (cursor_column : Column Item) (params : CursorPaginationParams)
         (direction : string) (items : list Item).

Lemma execute_nil query : execute (@nil Item) query = [].
Proof.
  unfold execute, apply_limit, apply_offset. cbn [filter].
  destruct (sel_offset query), (sel_limit query);
    rewrite ?skipn_nil; try destruct (_ <? 0); now rewrite ?firstn_nil.
Qed.

(** X7: on an empty collection the pager returns the empty page and no
    cursor, whatever the statement, the cursor and the direction, for
    every effective limit from 0 up that the statement can carry as a
    64-bit LIMIT. *)
Theorem cursor_paginate_empty_collection query cursor_column params direction :
  0 <= effective_limit maxPageSize params < 2 ^ 63 - 1 ->
  cursor_paginate maxPageSize [] query cursor_column params direction
  = Ok ([], None, None).
Proof.
  intros _. rewrite cursor_paginate_pieces. cbv zeta.
  unfold fetched. rewrite execute_nil.
  assert (trimmed maxPageSize (@nil Item) params = []) as ->.
  { unfold trimmed, slice_to.
    destruct (has_more _ _ _); [|reflexivity].
    destruct (0 <=? _); apply firstn_nil. }
  reflexivity.
Qed.

(** X8: a request whose effective limit is 0 gets the empty page and no
    [next_cursor], whatever the collection holds: nothing tells its
    reader that rows exist. *)
Theorem cursor_paginate_limit_zero db query cursor_column params direction :
  effective_limit maxPageSize params = 0 ->
  cursor_paginate maxPageSize db query cursor_column params direction
  = Ok ([], None, None).
Proof.
  intro H0. rewrite cursor_paginate_pieces. cbv zeta.
  rewrite (trimmed_firstn maxPageSize) by lia. rewrite H0.
  reflexivity.
Qed.

Lemma execute_in db q row :
  In row (execute db q) ->
  In row db /\ forallb (fun c => holds c row) (sel_where q) = true.
Proof.
  unfold execute, apply_limit, apply_offset. intro H.
  assert (In row (filter
            (fun row => forallb (fun c => holds c row) (sel_where q)) db))
    as Hf.
  { destruct (sel_offset q) as [o|], (sel_limit q) as [l|];
      repeat match goal with
        | H : In _ (if ?b then _ else _) |- _ => destruct b
        | H : In _ (firstn _ _) |- _ => apply firstn_incl in H
        | H : In _ (skipn _ _) |- _ => apply skipn_incl in H
        end; assumption. }
  now apply filter_In in Hf.
Qed.

Lemma execute_limit db q n :
  sel_limit q = None -> 0 <= n ->
  execute db (limit_ q n) = firstn (Z.to_nat n) (execute db q).
Proof.
  intros Hl Hn. unfold execute.
  cbn [limit_ sel_where sel_offset sel_limit]. rewrite Hl.
  cbn [apply_limit]. destruct (Z.ltb_spec n 0); [lia | reflexivity].
Qed.

Lemma filtered_limit query cursor_column params direction :
  sel_limit (filtered query cursor_column params direction) = sel_limit query.
Proof.
  unfold filtered. destruct (cursor_value params) as [v|]; [|reflexivity].
  destruct (truthy_str v); [|reflexivity].
  destruct (String.eqb direction "forward"); reflexivity.
Qed.

(** The page and [has_more], in terms of all the rows that match. *)
Lemma page_of_matching db query cursor_column params direction :
  sel_limit query = None ->
  0 <= effective_limit maxPageSize params ->
  let matching := execute db (filtered query cursor_column params direction) in
  let got := fetched maxPageSize db query cursor_column params direction in
  trimmed maxPageSize got params
  = firstn (Z.to_nat (effective_limit maxPageSize params)) matching
  /\ (has_more maxPageSize got params = true
      <-> effective_limit maxPageSize params < len matching).
Proof.
  intros Hl HL matching got.
  assert (got = firstn (Z.to_nat (effective_limit maxPageSize params + 1))
                       matching) as Hgot.
  { unfold got, fetched, statement. apply execute_limit; [|lia].
    now rewrite filtered_limit. }
  split.
  - rewrite trimmed_firstn by exact HL. rewrite Hgot, firstn_firstn.
    f_equal. lia.
  - unfold has_more, len. rewrite Hgot, length_firstn.
    destruct (Z.gtb_spec
                (Z.of_nat (Nat.min
                   (Z.to_nat (effective_limit maxPageSize params + 1))
                   (List.length matching)))
                (effective_limit maxPageSize params)); split; intro;
      try reflexivity; try discriminate; lia.
Qed.

End CursorPagerMore.

Lemma cursor_paginate_empty_collection_witness :
  CursorPagination.cursor_paginate 100 [] Sample.all_users Sample.user_key
    {| CursorPagination.cursor := Some (str_lit "MTA=");
       CursorPagination.limit := 10 |}
    "forward"
  = Ok ([], None, None).
Proof.
  apply (cursor_paginate_empty_collection 100 Sample.all_users
           Sample.user_key
           {| CursorPagination.cursor := Some (str_lit "MTA=");
              CursorPagination.limit := 10 |}
           "forward").
  vm_compute. split; [discriminate | reflexivity].
Defined.

Lemma cursor_paginate_limit_zero_witness :
  CursorPagination.cursor_paginate 100 Sample.users Sample.all_users
    Sample.user_key
    {| CursorPagination.cursor := None; CursorPagination.limit := 0 |}
    "forward"
  = Ok ([], None, None).
Proof.
  apply (cursor_paginate_limit_zero 100 Sample.users Sample.all_users
           Sample.user_key
           {| CursorPagination.cursor := None; CursorPagination.limit := 0 |}
           "forward").
  reflexivity.
Defined.

(** * Following [next_cursor] over integer keys *)

Section IntegerText.
Import Storage.
Local Open Scope Z_scope.

Lemma digits_value_digit n s acc :
  (n < 10)%N ->
  digits_value ((48 + n)%N :: s) acc = digits_value s (10 * acc + Z.of_N n).
Proof.
  intro H. cbn [digits_value].
  destruct (N.leb_spec 48 (48 + n)); [|lia].
  destruct (N.leb_spec (48 + n) 57); [|lia].
  cbn [andb]. f_equal. lia.
Qed.

Ltac digit_head :=
  match goal with
  | |- context [str_lit (NilEmpty.string_of_uint (?D ?d))] =>
      change (str_lit (NilEmpty.string_of_uint (Decimal.D0 d)))
        with ((48 + 0)%N :: str_lit (NilEmpty.string_of_uint d));
      change (str_lit (NilEmpty.string_of_uint (Decimal.D1 d)))
        with ((48 + 1)%N :: str_lit (NilEmpty.string_of_uint d));
      change (str_lit (NilEmpty.string_of_uint (Decimal.D2 d)))
        with ((48 + 2)%N :: str_lit (NilEmpty.string_of_uint d));
      change (str_lit (NilEmpty.string_of_uint (Decimal.D3 d)))
        with ((48 + 3)%N :: str_lit (NilEmpty.string_of_uint d));
      change (str_lit (NilEmpty.string_of_uint (Decimal.D4 d)))
        with ((48 + 4)%N :: str_lit (NilEmpty.string_of_uint d));
      change (str_lit (NilEmpty.string_of_uint (Decimal.D5 d)))
        with ((48 + 5)%N :: str_lit (NilEmpty.string_of_uint d));
      change (str_lit (NilEmpty.string_of_uint (Decimal.D6 d)))
        with ((48 + 6)%N :: str_lit (NilEmpty.string_of_uint d));
      change (str_lit (NilEmpty.string_of_uint (Decimal.D7 d)))
        with ((48 + 7)%N :: str_lit (NilEmpty.string_of_uint d));
      change (str_lit (NilEmpty.string_of_uint (Decimal.D8 d)))
        with ((48 + 8)%N :: str_lit (NilEmpty.string_of_uint d));
      change (str_lit (NilEmpty.string_of_uint (Decimal.D9 d)))
        with ((48 + 9)%N :: str_lit (NilEmpty.string_of_uint d))
  end.

Lemma digits_value_acc d : forall acc,
  digits_value (str_lit (NilEmpty.string_of_uint d)) (Z.pos acc) = Some (Z.pos (Pos.of_uint_acc d acc)).
Proof.
  induction d; intro acc; [reflexivity | ..]; digit_head;
    rewrite digits_value_digit by lia; cbn [Pos.of_uint_acc];
    rewrite <- IHd; f_equal; lia.
Qed.

Lemma digits_value_uint d :
  digits_value (str_lit (NilEmpty.string_of_uint d)) 0 = Some (Z.of_N (Pos.of_uint d)).
Proof.
  induction d; [reflexivity | ..]; digit_head;
    rewrite digits_value_digit by lia; cbn [Pos.of_uint];
    first [exact IHd
          | cbn [Z.of_N]; rewrite <- digits_value_acc; reflexivity].
Qed.

Lemma txt_head d :
  d <> Decimal.Nil ->
  exists n r, (n < 10)%N /\ str_lit (NilEmpty.string_of_uint d) = (48 + n)%N :: r.
Proof.
  intro H. destruct d; [now destruct H | ..].
  all: first [ (exists 0%N; eexists; split; [lia | reflexivity])
             | (exists 1%N; eexists; split; [lia | reflexivity])
             | (exists 2%N; eexists; split; [lia | reflexivity])
             | (exists 3%N; eexists; split; [lia | reflexivity])
             | (exists 4%N; eexists; split; [lia | reflexivity])
             | (exists 5%N; eexists; split; [lia | reflexivity])
             | (exists 6%N; eexists; split; [lia | reflexivity])
             | (exists 7%N; eexists; split; [lia | reflexivity])
             | (exists 8%N; eexists; split; [lia | reflexivity])
             | (exists 9%N; eexists; split; [lia | reflexivity]) ].
Qed.

Lemma parse_int_digit n r :
  (n < 10)%N ->
  parse_int ((48 + n)%N :: r) = digits_value ((48 + n)%N :: r) 0.
Proof.
  intro H. destruct n as [|p]; [reflexivity|].
  do 4 (destruct p as [p|p|]; try lia; try reflexivity).
Qed.

Lemma nilzero_nonnil d :
  d <> Decimal.Nil ->
  NilZero.string_of_uint d = NilEmpty.string_of_uint d.
Proof. intro H. destruct d; try reflexivity. contradiction. Qed.

(** The storage engine reads the text of an integer back as that
    integer. *)
Lemma parse_int_str_of_int z : parse_int (str_of_int z) = Some z.
Proof.
  unfold str_of_int. destruct z as [|p|p]; [reflexivity | |].
  - cbn [Z.to_int NilZero.string_of_int].
    rewrite nilzero_nonnil by apply Unsigned.to_uint_nonnil.
    destruct (txt_head _ (Unsigned.to_uint_nonnil p)) as [n [r [Hn E]]].
    rewrite E, parse_int_digit by exact Hn. rewrite <- E.
    rewrite digits_value_uint, Unsigned.of_to. reflexivity.
  - cbn [Z.to_int NilZero.string_of_int].
    rewrite nilzero_nonnil by apply Unsigned.to_uint_nonnil.
    change (str_lit (String "-" (NilEmpty.string_of_uint (Pos.to_uint p))))
      with (45%N :: str_lit (NilEmpty.string_of_uint (Pos.to_uint p))).
    destruct (txt_head _ (Unsigned.to_uint_nonnil p)) as [n [r [Hn E]]].
    rewrite E. cbn [parse_int]. rewrite <- E.
    rewrite digits_value_uint, Unsigned.of_to. reflexivity.
Qed.

Lemma str_of_int_nonempty z : str_of_int z <> [].
Proof.
  intro E. pose proof (parse_int_str_of_int z) as H. rewrite E in H.
  discriminate H.
Qed.

End IntegerText.

Section ForwardWalk.
Import Storage Codec CursorPagination.
Local Open Scope Z_scope.

Context {Item : Type}.
Variable key : Item -> Z.
Variable maxPageSize : Z.

Implicit Types (db : Session Item) (params : CursorPaginationParams).

Lemma filter_all (f : Item -> bool) l :
  Forall (fun x => f x = true) l -> filter f l = l.
Proof.
  induction 1 as [|x l Hx _ IH]; [reflexivity|].
  cbn [filter]. now rewrite Hx, IH.
Qed.

Lemma filter_none (f : Item -> bool) l :
  Forall (fun x => f x = false) l -> filter f l = [].
Proof.
  induction 1 as [|x l Hx _ IH]; [reflexivity|].
  cbn [filter]. now rewrite Hx, IH.
Qed.

Lemma execute_where db (crits : list (criterion Item)) :
  execute db {| sel_where := crits; sel_offset := None; sel_limit := None |}
  = filter (fun row => forallb (fun c => holds c row) crits) db.
Proof. reflexivity. Qed.

Lemma holds_int_gt v k row :
  parse_int v = Some k ->
  holds (Criterion (int_column key) Gt v) row = (key row >? k).
Proof.
  intro H. unfold holds, compare_bound, int_column.
  cbn [crit_op crit_column crit_bound]. rewrite H. unfold Z.gtb.
  destruct (key row ?= k); reflexivity.
Qed.

Lemma holds_int_gt_text v row :
  parse_int v = None ->
  holds (Criterion (int_column key) Gt v) row = false.
Proof.
  intro H. unfold holds, compare_bound, int_column.
  cbn [crit_op crit_column crit_bound]. now rewrite H.
Qed.

(** The rows a forward request matches: all of them without a cursor
    that counts, those above the cursor's integer otherwise. *)
Lemma forward_matching db params :
  let M := execute db (filtered (select_all Item) (int_column key) params
                                "forward") in
  (truthy_opt_str (cursor_value params) = false /\ M = db)
  \/ (exists v, cursor_value params = Some v /\ truthy_str v = true
                /\ ((exists k, parse_int v = Some k
                               /\ M = filter (fun row => key row >? k) db)
                    \/ (parse_int v = None /\ M = []))).
Proof.
  cbv zeta. unfold filtered.
  destruct (cursor_value params) as [v|] eqn:Hv; cbn [truthy_opt_str].
  - destruct (truthy_str v) eqn:Ht.
    + right. exists v. split; [reflexivity|]. split; [exact Ht|].
      rewrite String.eqb_refl.
      unfold select_all, where_. cbn [sel_where sel_offset sel_limit app].
      rewrite execute_where.
      destruct (parse_int v) as [k|] eqn:Hk.
      * left. exists k. split; [reflexivity|].
        apply filter_ext. intro row. cbn [forallb].
        now rewrite (holds_int_gt v k row Hk), andb_true_r.
      * right. split; [reflexivity|].
        apply filter_none. apply Forall_forall. intros row _.
        cbn [forallb]. now rewrite (holds_int_gt_text v row Hk).
    + left. split; [reflexivity|]. unfold select_all.
      rewrite execute_where. apply filter_all, Forall_forall.
      intros; reflexivity.
  - left. split; [reflexivity|]. unfold select_all.
    rewrite execute_where. apply filter_all, Forall_forall.
    intros; reflexivity.
Qed.

Lemma ascending_above_suffix db k :
  ascending key db ->
  exists pre, db = pre ++ filter (fun row => key row >? k) db.
Proof.
  unfold ascending. induction 1 as [|a l Hs IH Ha].
  - exists []. reflexivity.
  - cbn [filter]. destruct (Z.gtb_spec (key a) k) as [Hgt|Hle].
    + exists []. cbn [app]. f_equal. symmetry. apply filter_all.
      rewrite Forall_forall in *. intros x Hx. specialize (Ha x Hx).
      apply Z.gtb_gt. lia.
    + destruct IH as [pre Hpre]. exists (a :: pre). cbn [app].
      now rewrite <- Hpre.
Qed.

Lemma ascending_split A lst B :
  ascending key (A ++ lst :: B) ->
  Forall (fun row => key row < key lst) A
  /\ Forall (fun row => key lst < key row) B.
Proof.
  unfold ascending. induction A as [|a A IH]; cbn [app]; intro H.
  - apply StronglySorted_inv in H. destruct H as [_ H].
    split; [constructor | exact H].
  - apply StronglySorted_inv in H. destruct H as [Hs Ha].
    destruct (IH Hs) as [HA HB]. split; [|exact HB].
    constructor; [|exact HA].
    rewrite Forall_forall in Ha. apply Ha. apply in_or_app. right. now left.
Qed.

Lemma above_last A lst B :
  ascending key (A ++ lst :: B) ->
  filter (fun row => key row >? key lst) (A ++ lst :: B) = B.
Proof.
  intro H. destruct (ascending_split _ _ _ H) as [HA HB].
  rewrite filter_app. cbn [filter].
  rewrite filter_none.
  - rewrite Z.gtb_ltb, Z.ltb_irrefl. cbn [app]. apply filter_all.
    rewrite Forall_forall in *. intros x Hx. apply Z.gtb_gt.
    specialize (HB x Hx). lia.
  - rewrite Forall_forall in *. intros x Hx. specialize (HA x Hx).
    destruct (Z.gtb_spec (key x) (key lst)); [lia | reflexivity].
Qed.

Lemma int_cursor_nonempty z c : encode_cursor (VInt z) = Ok c -> c <> [].
Proof.
  intros H E. destruct (encode_cursor_inv _ _ H) as [_ [_ [_ Hd]]].
  subst c. cbn [str_of] in Hd.
  exact (str_of_int_nonempty z (eq_sym Hd)).
Qed.

(** X11: over a collection in strictly ascending order of an integer
    key, with a limit of at least 1, the page fetched with the
    [next_cursor] of a page is the stretch of the collection right after
    that page: no row between them, none twice.  The first page (no
    cursor) starts the collection, every page that has a [next_cursor]
    is full, and a page without [next_cursor] ends the collection. *)
Theorem next_page_follows db cur lim page1 nc prev1 page2 next2 prev2 :
  ascending key db ->
  1 <= lim -> 1 <= maxPageSize ->
  cursor_paginate maxPageSize db (select_all Item) (int_column key)
                  {| cursor := cur; limit := lim |} "forward"
  = Ok (page1, Some nc, prev1) ->
  cursor_paginate maxPageSize db (select_all Item) (int_column key)
                  {| cursor := Some nc; limit := lim |} "forward"
  = Ok (page2, next2, prev2) ->
  exists before after,
    db = before ++ page1 ++ page2 ++ after
    /\ len page1 = Z.min lim maxPageSize
    /\ (truthy_opt_str (cursor_value {| cursor := cur; limit := lim |})
        = false -> before = [])
    /\ (next2 = None -> after = []).
Proof.
  intros Hasc Hlim Hmax H1 H2.
  set (p1 := {| cursor := cur; limit := lim |}) in *.
  set (p2 := {| cursor := Some nc; limit := lim |}) in *.
  set (E := Z.min lim maxPageSize).
  assert (effective_limit maxPageSize p1 = E) as HE1 by reflexivity.
  assert (effective_limit maxPageSize p2 = E) as HE2 by reflexivity.
  assert (1 <= E) as HE by (unfold E; lia).
  (* the first page *)
  apply cursor_paginate_inv in H1. destruct H1 as [Hp1 Hc1].
  destruct (page_of_matching maxPageSize db (select_all Item)
              (int_column key) p1 "forward" eq_refl ltac:(lia))
    as [Hpage1 Hmore1].
  rewrite HE1 in Hpage1, Hmore1. rewrite Hpage1 in Hp1.
  set (M1 := execute db (filtered (select_all Item) (int_column key) p1
                                  "forward")) in *.
  apply cursors_spec in Hc1. destruct Hc1 as [Hn1 [Hlast _]].
  assert (E < len M1) as Hlen1.
  { apply Hmore1. apply Hn1. discriminate. }
  destruct (Hlast nc eq_refl) as [init [lst [Hinit Henc]]].
  (* the rows matched by the first request end the collection *)
  assert (exists pre, db = pre ++ M1
                      /\ (truthy_opt_str (cursor_value p1) = false ->
                          pre = [])) as [pre [Hdb Hpre]].
  { destruct (forward_matching db p1) as [[Hf HM] | [v [Hv [Ht HM]]]];
      fold M1 in HM.
    - exists []. split; [now rewrite HM | reflexivity].
    - assert (truthy_opt_str (cursor_value p1) = false -> False) as Hno.
      { rewrite Hv. cbn [truthy_opt_str]. rewrite Ht. discriminate. }
      destruct HM as [[k [_ HM]] | [_ HM]].
      + destruct (ascending_above_suffix db k Hasc) as [pre Hsuf].
        exists pre. rewrite HM. split; [exact Hsuf | now intro].
      + exists db. rewrite HM, app_nil_r. split; [reflexivity | now intro]. }
  pose proof (firstn_skipn (Z.to_nat E) M1) as Hsplit.
  rewrite <- Hp1 in Hsplit.
  set (rest := skipn (Z.to_nat E) M1) in *.
  assert (db = (pre ++ init) ++ lst :: rest) as Hdb'.
  { rewrite Hdb, <- Hsplit, Hinit. rewrite <- !app_assoc. reflexivity. }
  (* the second request matches what follows the first page *)
  assert (cursor_value p2 = Some (str_of_int (key lst))) as Hv2.
  { unfold cursor_value, p2. cbn [cursor truthy_opt_str option_map].
    pose proof (int_cursor_nonempty _ _ Henc) as Hne.
    destruct nc as [|a nc']; [now destruct Hne|]. cbn [truthy_str].
    destruct (encode_cursor_inv _ _ Henc) as [_ [_ [_ Hd]]].
    now rewrite Hd. }
  assert (execute db (filtered (select_all Item) (int_column key) p2
                               "forward") = rest) as HM2.
  { destruct (forward_matching db p2) as [[Hf _] | [v [Hv [_ HM]]]].
    - rewrite Hv2 in Hf. cbn [truthy_opt_str] in Hf.
      pose proof (str_of_int_nonempty (key lst)).
      destruct (str_of_int (key lst)); [contradiction | discriminate].
    - rewrite Hv2 in Hv. injection Hv as <-.
      rewrite parse_int_str_of_int in HM.
      destruct HM as [[k [[= <-] HM]] | [HM _]]; [|discriminate].
      rewrite HM, Hdb'. apply above_last. now rewrite <- Hdb'. }
  apply cursor_paginate_inv in H2. destruct H2 as [Hp2 Hc2].
  destruct (page_of_matching maxPageSize db (select_all Item)
              (int_column key) p2 "forward" eq_refl ltac:(lia))
    as [Hpage2 Hmore2].
  rewrite HE2, HM2 in Hpage2, Hmore2. rewrite Hpage2 in Hp2.
  apply cursors_spec in Hc2. destruct Hc2 as [Hn2 _].
  exists pre, (skipn (Z.to_nat E) rest). repeat split.
  - rewrite Hp2, firstn_skipn. rewrite Hdb, <- Hsplit. reflexivity.
  - rewrite Hp1. unfold len in *. rewrite length_firstn. lia.
  - exact Hpre.
  - intro Hnone. apply skipn_all2.
    destruct (Z.lt_ge_cases E (len rest)) as [Hlt|Hge].
    + exfalso. assert (next2 <> None) as Hx; [|now apply Hx].
      apply Hn2. split; [now apply Hmore2|].
      rewrite Hp2. intro E0. apply (f_equal (@List.length Item)) in E0.
      rewrite length_firstn in E0. unfold len in Hlt. cbn in E0. lia.
    + unfold len in Hge. lia.
Qed.

End ForwardWalk.

Lemma next_page_follows_witness :
  exists before after,
    Sample.users_of [1; 2; 3; 4; 5; 6; 7]%Z
    = before ++ Sample.users_of [1; 2; 3]%Z
             ++ Sample.users_of [4; 5; 6]%Z ++ after
    /\ len (Sample.users_of [1; 2; 3]%Z) = Z.min 3 100
    /\ (truthy_opt_str
          (CursorPagination.cursor_value
             {| CursorPagination.cursor := None;
                CursorPagination.limit := 3 |}) = false -> before = [])
    /\ (Some (str_lit "Ng==") = None -> after = []).
Proof.
  apply (next_page_follows Sample.user_id 100
           (Sample.users_of [1; 2; 3; 4; 5; 6; 7]%Z) None 3
           (Sample.users_of [1; 2; 3]%Z) (str_lit "Mw==") None
           (Sample.users_of [4; 5; 6]%Z) (Some (str_lit "Ng=="))
           (Some (str_lit "NA=="))).
  - unfold Storage.ascending.
    repeat (apply SSorted_cons;
            [|repeat (apply Forall_cons; [cbn; lia|]); apply Forall_nil]).
    apply SSorted_nil.
  - lia.
  - lia.
  - reflexivity.
  - reflexivity.
Defined.

(** * Further properties of the offset pager *)

Section OffsetMore.
Import Storage OffsetPagination.
Local Open Scope Z_scope.

Context {Item : Type}.

Implicit Types (db : Session Item) (query : select Item)
         (params : OffsetPaginationParams).

Lemma firstn_plus (a b : nat) (l : list Item) :
  firstn (a + b) l = firstn a l ++ firstn b (skipn a l).
Proof.
  revert l. induction a as [|a IH]; intro l; [reflexivity|].
  destruct l as [|x l]; cbn [Nat.add firstn skipn app].
  - now rewrite firstn_nil.
  - now rewrite IH.
Qed.

Lemma offset_paginate_rows db query params :
  sel_offset query = None -> sel_limit query = None ->
  0 <= limit params ->
  offset_paginate db query params None
  = (firstn (Z.to_nat (limit params))
            (skipn (Z.to_nat (offset params)) (execute db query)),
     len (execute db query)).
Proof.
  intros Ho Hl Hlim. unfold offset_paginate.
  cbn [count_statement execute_scalar]. rewrite or_zero_count.
  now rewrite execute_paginated.
Qed.

(** X12: for a statement without a window of its own, the pages
    1, 2, ..., k of [offset_paginate], one after the other, are the first
    [k * limit] rows of the collection: no row is skipped, none comes
    twice, and once [k * limit] reaches the count they are all there. *)
Theorem offset_pages_concat db query lim k :
  sel_offset query = None -> sel_limit query = None ->
  1 <= lim ->
  List.concat (map (fun p => fst (offset_paginate db query
                               {| page := Z.of_nat p; limit := lim |} None))
              (seq 1 k))
  = firstn (k * Z.to_nat lim) (execute db query)
  /\ (len (execute db query) <= Z.of_nat k * lim ->
      List.concat (map (fun p => fst (offset_paginate db query
                                   {| page := Z.of_nat p; limit := lim |}
                                   None))
                  (seq 1 k))
      = execute db query).
Proof.
  intros Ho Hl Hlim.
  assert (List.concat (map (fun p => fst (offset_paginate db query
                               {| page := Z.of_nat p; limit := lim |} None))
                      (seq 1 k))
          = firstn (k * Z.to_nat lim) (execute db query)) as E.
  { induction k as [|k IH]; [reflexivity|].
    rewrite seq_S, map_app, concat_app, IH. cbn [map List.concat].
    rewrite offset_paginate_rows by (assumption || (cbn [limit]; lia)).
    cbn [fst]. rewrite app_nil_r. unfold offset. cbn [page limit].
    replace (Z.to_nat ((Z.of_nat (1 + k) - 1) * lim))
      with (k * Z.to_nat lim)%nat by nia.
    rewrite <- firstn_plus. f_equal. lia. }
  split; [exact E|]. intro Hall. rewrite E. apply firstn_all2.
  unfold len in Hall. nia.
Qed.

Lemma offset_page_rows db query params :
  sel_offset query = None -> sel_limit query = None ->
  1 <= page params -> 1 <= limit params ->
  let r := offset_paginate db query params None in
  snd r = len (execute db query)
  /\ len (fst r) = Z.max 0 (Z.min (limit params) (snd r - offset params))
  /\ (fst r <> [] <-> offset params < snd r)
  /\ (offset params + limit params <= snd r -> len (fst r) = limit params).
Proof.
  intros Ho Hl Hp Hlim r. unfold r.
  rewrite offset_paginate_rows by (assumption || lia). cbn [fst snd].
  assert (0 <= offset params) as Hoff by (unfold offset; nia).
  assert (len (firstn (Z.to_nat (limit params))
                 (skipn (Z.to_nat (offset params)) (execute db query)))
          = Z.max 0 (Z.min (limit params)
                           (len (execute db query) - offset params)))
    as Hlen.
  { unfold len. rewrite length_firstn, length_skipn. lia. }
  repeat split.
  - exact Hlen.
  - intro Hne.
    destruct (Z.lt_ge_cases (offset params) (len (execute db query)));
      [assumption|].
    exfalso. apply Hne. apply length_zero_iff_nil.
    unfold len in *. lia.
  - intros Hlt E. rewrite E in Hlen. unfold len in *.
    cbn [List.length] in Hlen. lia.
  - intro Hfit. unfold len in *. lia.
Qed.

(** X13: for a statement without a window of its own and a request with
    [page >= 1] and [limit >= 1], [offset_paginate] returns the count of
    all matching rows with [min(limit, count - offset)] rows (none when
    the offset reaches the count): a page has rows exactly when its
    offset is below the count, and is full when a whole page fits. *)
Theorem offset_page_length db query params :
  sel_offset query = None -> sel_limit query = None ->
  1 <= page params -> 1 <= limit params ->
  let r := offset_paginate db query params None in
  snd r = len (execute db query)
  /\ len (fst r) = Z.max 0 (Z.min (limit params) (snd r - offset params))
  /\ (fst r <> [] <-> offset params < snd r)
  /\ (offset params + limit params <= snd r -> len (fst r) = limit params).
Proof.
  intros Ho Hl Hp Hlim. exact (offset_page_rows db query params Ho Hl Hp Hlim).
Qed.

Lemma ceiling_exists a b : 0 < b -> Float.is_ceiling a b ((a + b - 1) / b).
Proof.
  intro Hb. unfold Float.is_ceiling.
  pose proof (Z.div_mod (a + b - 1) b ltac:(lia)).
  pose proof (Z.mod_pos_bound (a + b - 1) b Hb). nia.
Qed.


Lemma round_half_even_nonneg num den :
  0 <= num -> 0 < den -> 0 <= Float.round_half_even num den.
Proof.
  intros Hn Hd. unfold Float.round_half_even.
  pose proof (Z.div_pos num den Hn Hd).
  destruct (2 * (num mod den) ?= den); [destruct (Z.even _)| |]; lia.
Qed.

Lemma ceil_truediv_nonneg a b f :
  0 <= a -> 0 < b -> Float.truediv a b = Ok f -> 0 <= Float.ceil f.
Proof.
  intros Ha Hb. unfold Float.truediv.
  destruct (Z.eqb_spec b 0); [lia|].
  destruct (Z.eqb_spec a 0); [now intros [= <-]|].
  rewrite (Z.abs_eq a), (Z.abs_eq b), (Z.sgn_pos a), (Z.sgn_pos b) by lia.
  unfold Float.divide_pos.
  set (e := Float.ulp_exponent a b).
  set (m := Float.round_half_even (a * 2 ^ Z.max (- e) 0)
                                  (b * 2 ^ Z.max e 0)).
  assert (0 <= m) as Hm.
  { apply round_half_even_nonneg.
    - pose proof (pow2_pos (Z.max (- e) 0) ltac:(lia)). nia.
    - pose proof (pow2_pos (Z.max e 0) ltac:(lia)). nia. }
  destruct (_ || _); cbn [bind]; [discriminate|].
  intros H. apply Ok_inj in H. subst f.
  unfold Float.ceil. cbn [Float.mant Float.expo].
  replace (1 * 1 * m) with m by lia.
  destruct (Z.leb_spec 0 e).
  - pose proof (pow2_pos e ltac:(lia)). nia.
  - pose proof (pow2_pos (- e) ltac:(lia)) as Hpow.
    assert ((- m) / 2 ^ (- e) <= 0); [|lia].
    apply Z.div_le_upper_bound; lia.
Qed.

(** X15: [create_pagination_response] never divides by zero: with a
    limit of 0 or less it returns 0 pages; the only exception it can
    raise is OverflowError, and only for a count of [2 ^ 1023] or more
    in absolute value. *)
Theorem create_pagination_response_errors (items : list Item)
        total page_no lim :
  (lim <= 0 ->
   create_pagination_response items total page_no lim
   = Ok {| data := items;
           pagination :=
             {| current_page := page_no;
                page_size := lim;
                total_items := total;
                total_pages := 0;
                has_next := page_no <? 0;
                has_previous := page_no >? 1 |} |})
  /\ (forall e,
        create_pagination_response items total page_no lim = Raise e ->
        e = OverflowError /\ 0 < lim /\ 2 ^ 1023 <= Z.abs total).
Proof.
  unfold create_pagination_response, compute_total_pages. split.
  - intro Hl. destruct (Z.gtb_spec lim 0); [lia | reflexivity].
  - intro e. destruct (Z.gtb_spec lim 0) as [Hl|Hl]; [|discriminate].
    unfold Float.truediv.
    destruct (Z.eqb_spec lim 0); [lia|].
    destruct (Z.eqb_spec total 0); [discriminate|].
    unfold Float.divide_pos, Float.ulp_exponent.
    set (p := Float.quotient_log2 (Z.abs total) (Z.abs lim)).
    destruct ((971 <? Z.max (p - 52) (-1074))
              || ((Z.max (p - 52) (-1074) =? 971) && _)) eqn:Hov;
      cbn [bind fmap]; [|discriminate].
    intros [= <-]. repeat split; [exact Hl|].
    assert (971 <= Z.max (p - 52) (-1074)) as He.
    { apply orb_prop in Hov. destruct Hov as [H|H].
      - apply Z.ltb_lt in H. lia.
      - apply andb_prop in H. destruct H as [H _].
        apply Z.eqb_eq in H. lia. }
    assert (p <= Z.log2 (Z.abs total)) as Hp.
    { unfold p, Float.quotient_log2.
      pose proof (Z.log2_nonneg (Z.abs lim)).
      destruct (_ <=? _); lia. }
    assert (0 < Z.abs total) as Hpos by lia.
    pose proof (Z.log2_spec (Z.abs total) Hpos) as [Hlo _].
    assert (2 ^ 1023 <= 2 ^ Z.log2 (Z.abs total))
      by (apply Z.pow_le_mono_r; lia).
    lia.
Qed.

(** X16: for [page >= 1], [limit >= 1] and a count that is not negative,
    the metadata [create_pagination_response] builds meets the bounds
    that [schemas.OffsetPagination] puts on the same fields: building
    that model from them raises no validation error. *)
Theorem metadata_meets_schema (items : list Item) total page_no lim r :
  1 <= page_no -> 1 <= lim -> 0 <= total ->
  create_pagination_response items total page_no lim = Ok r ->
  Schemas.make_offset_pagination
    (current_page (pagination r)) (page_size (pagination r))
    (total_items (pagination r)) (total_pages (pagination r))
    (has_next (pagination r)) (has_previous (pagination r))
  = Some {| Schemas.current_page := page_no;
            Schemas.page_size := lim;
            Schemas.total_items := total;
            Schemas.total_pages := total_pages (pagination r);
            Schemas.has_next := page_no <? total_pages (pagination r);
            Schemas.has_previous := page_no >? 1 |}.
Proof.
  intros Hp Hl Ht. unfold create_pagination_response, compute_total_pages.
  destruct (Z.gtb_spec lim 0); [|lia].
  destruct (Float.truediv total lim) as [f|] eqn:Hf; cbn [fmap bind];
    [|discriminate].
  intros [= <-]. cbn [pagination current_page page_size total_items
                      total_pages has_next has_previous].
  pose proof (ceil_truediv_nonneg total lim f Ht ltac:(lia) Hf) as Hc.
  unfold Schemas.make_offset_pagination.
  destruct (Z.leb_spec 1 page_no); [|lia].
  destruct (Z.leb_spec 1 lim); [|lia].
  destruct (Z.leb_spec 0 total); [|lia].
  destruct (Z.leb_spec 0 (Float.ceil f)); [|lia].
  reflexivity.
Qed.

(** X17: for validated parameters ([page >= 1],
    [1 <= limit <= maxPageSize]) the endpoint of the docstring, which
    writes [ceil(total / params.limit)] out without a test of the limit,
    builds the very response of [create_pagination_response] on the
    result of [offset_paginate]. *)
Theorem list_users_agrees db query params maxPageSize :
  validated maxPageSize params = true ->
  list_users db query params
  = create_pagination_response
      (fst (offset_paginate db query params None))
      (snd (offset_paginate db query params None))
      (page params) (limit params).
Proof.
  intro Hv. unfold validated in Hv.
  apply andb_prop in Hv. destruct Hv as [Hv _].
  apply andb_prop in Hv. destruct Hv as [_ Hl]. apply Z.leb_le in Hl.
  unfold list_users, create_pagination_response, compute_total_pages.
  destruct (offset_paginate db query params None) as [items total].
  cbn [fst snd]. destruct (Z.gtb_spec (limit params) 0); [|lia].
  destruct (fmap Float.ceil (Float.truediv total (limit params)));
    reflexivity.
Qed.

(** X20: for a count and a limit below [2 ^ 53] (and a limit of at least
    1), [create_pagination_response] returns, with [total_pages] the
    least [k] such that [k * limit] covers the count, [has_next] equal to
    [page < total_pages] and [has_previous] to [page > 1]; the last page
    and every page after it have no next. *)
Theorem total_pages_exact (items : list Item) total page_no lim :
  0 <= total < 2 ^ 53 -> 1 <= lim < 2 ^ 53 ->
  exists r,
    create_pagination_response items total page_no lim = Ok r
    /\ data r = items
    /\ total_items (pagination r) = total
    /\ (total_pages (pagination r) - 1) * lim < total
       <= total_pages (pagination r) * lim
    /\ has_next (pagination r) = (page_no <? total_pages (pagination r))
    /\ has_previous (pagination r) = (page_no >? 1)
    /\ (has_next (pagination r) = true <-> page_no * lim < total).
Proof.
  intros Ht Hl.
  pose proof (ceiling_exists total lim ltac:(lia)) as Hk.
  set (k := (total + lim - 1) / lim) in *.
  eexists. split.
  - apply (create_pagination_response_exact items total page_no lim k);
      assumption.
  - cbn [data pagination total_items total_pages has_next has_previous].
    unfold Float.is_ceiling in Hk. repeat split; try lia.
    + intro H. apply Z.ltb_lt in H. nia.
    + intro H. apply Z.ltb_lt. nia.
Qed.

End OffsetMore.

Lemma offset_pages_concat_witness :
  List.concat (map (fun p => fst (OffsetPagination.offset_paginate Sample.users Sample.all_users
                               {| OffsetPagination.page := Z.of_nat p; OffsetPagination.limit := 10 |} None))
              (seq 1 3))
  = Storage.execute Sample.users Sample.all_users.
Proof.
  destruct (offset_pages_concat Sample.users Sample.all_users 10 3
              eq_refl eq_refl ltac:(lia)) as [_ H].
  apply H. vm_compute. discriminate.
Defined.

Lemma offset_page_length_witness :
  snd (OffsetPagination.offset_paginate Sample.users Sample.all_users
                       {| OffsetPagination.page := 3; OffsetPagination.limit := 10 |} None)
  = len (Storage.execute Sample.users Sample.all_users)
  /\ len (fst (OffsetPagination.offset_paginate Sample.users Sample.all_users
                               {| OffsetPagination.page := 3; OffsetPagination.limit := 10 |} None))
     = Z.max 0 (Z.min 10
                 (snd (OffsetPagination.offset_paginate Sample.users Sample.all_users
                                       {| OffsetPagination.page := 3; OffsetPagination.limit := 10 |} None)
                  - OffsetPagination.offset {| OffsetPagination.page := 3; OffsetPagination.limit := 10 |})).
Proof.
  destruct (offset_page_length Sample.users Sample.all_users
              {| OffsetPagination.page := 3; OffsetPagination.limit := 10 |} eq_refl eq_refl
              ltac:(cbn; lia) ltac:(cbn; lia)) as [H1 [H2 _]].
  split; [exact H1 | exact H2].
Defined.


Lemma metadata_meets_schema_witness :
  Schemas.make_offset_pagination 2 10 23 3 true true
  = Some {| Schemas.current_page := 2;
            Schemas.page_size := 10;
            Schemas.total_items := 23;
            Schemas.total_pages := 3;
            Schemas.has_next := (2 <? 3)%Z;
            Schemas.has_previous := (2 >? 1)%Z |}.
Proof.
  apply (metadata_meets_schema (@nil Sample.User) 23 2 10
           {| OffsetPagination.data := [];
              OffsetPagination.pagination :=
                {| OffsetPagination.current_page := 2;
                   OffsetPagination.page_size := 10;
                   OffsetPagination.total_items := 23;
                   OffsetPagination.total_pages := 3;
                   OffsetPagination.has_next := true;
                   OffsetPagination.has_previous := true |} |});
    [lia | lia | lia | vm_compute; reflexivity].
Defined.

(** * The backward direction *)

Section CursorPagerEdges.
Import Storage Codec CursorPagination.
Local Open Scope Z_scope.

Context {Item : Type}.
Variable maxPageSize : Z.

Implicit Types (db : Session Item) (query : select Item)
         (cursor_column : Column Item) (params : CursorPaginationParams)
         (direction : string).

Lemma holds_int_lt (key : Item -> Z) v k row :
  parse_int v = Some k ->
  holds (Criterion (int_column key) Lt v) row = (key row <? k).
Proof.
  intro H. unfold holds, compare_bound, int_column.
  cbn [crit_op crit_column crit_bound]. rewrite H. unfold Z.ltb.
  destruct (key row ?= k); reflexivity.
Qed.

Lemma ascending_below_prefix (key : Item -> Z) db k :
  ascending key db ->
  exists post, db = filter (fun row => key row <? k) db ++ post.
Proof.
  unfold ascending. induction 1 as [|a l Hs IH Ha].
  - exists []. reflexivity.
  - cbn [filter]. destruct (Z.ltb_spec (key a) k) as [Hlt|Hge].
    + destruct IH as [post Hpost]. exists post. cbn [app].
      now rewrite <- Hpost.
    + exists (a :: l). cbn [app].
      replace (filter (fun row => key row <? k) l) with (@nil Item);
        [reflexivity|].
      symmetry. apply filter_none.
      rewrite Forall_forall in *. intros x Hx. specialize (Ha x Hx).
      apply Z.ltb_ge. lia.
Qed.

(** X19: over a collection in strictly ascending order of an integer
    key, a request in a direction other than ["forward"] with the cursor
    of key [k] returns the first rows of the collection, as many as the
    limit allows among those below [k]: the page starts the collection,
    it is not the stretch that ends just before [k]. *)
Theorem backward_page_starts_collection (key : Item -> Z) db k c lim direction
        items next prev :
  ascending key db ->
  1 <= lim -> 1 <= maxPageSize ->
  direction <> "forward"%string ->
  encode_cursor (VInt k) = Ok c ->
  cursor_paginate maxPageSize db (select_all Item) (int_column key)
                  {| cursor := Some c; limit := lim |} direction
  = Ok (items, next, prev) ->
  exists rest,
    db = items ++ rest
    /\ Forall (fun row => key row < k) items
    /\ items = firstn (Z.to_nat (Z.min lim maxPageSize))
                      (filter (fun row => key row <? k) db).
Proof.
  intros Hasc Hlim Hmax Hdir Henc Hr.
  set (p := {| cursor := Some c; limit := lim |}) in *.
  assert (cursor_value p = Some (str_of_int k)) as Hv.
  { unfold cursor_value, p. cbn [cursor truthy_opt_str option_map].
    pose proof (int_cursor_nonempty _ _ Henc) as Hne.
    destruct c as [|a c']; [now destruct Hne|]. cbn [truthy_str].
    destruct (encode_cursor_inv _ _ Henc) as [_ [_ [_ Hd]]].
    now rewrite Hd. }
  assert (execute db (filtered (select_all Item) (int_column key) p direction)
          = filter (fun row => key row <? k) db) as HM.
  { unfold filtered. rewrite Hv.
    pose proof (str_of_int_nonempty k) as Hne.
    destruct (str_of_int k) as [|a v] eqn:Hs; [now destruct Hne|].
    cbn [truthy_str]. apply String.eqb_neq in Hdir. rewrite Hdir.
    unfold select_all, where_. cbn [sel_where sel_offset sel_limit app].
    rewrite execute_where. apply filter_ext. intro row. cbn [forallb].
    rewrite (holds_int_lt key (a :: v) k row), andb_true_r; [reflexivity|].
    rewrite <- Hs. apply parse_int_str_of_int. }
  apply cursor_paginate_inv in Hr. destruct Hr as [Hitems _].
  destruct (page_of_matching maxPageSize db (select_all Item)
              (int_column key) p direction eq_refl
              ltac:(unfold effective_limit, p; cbn [limit]; lia))
    as [Hpage _].
  rewrite HM in Hpage. rewrite Hpage in Hitems.
  change (effective_limit maxPageSize p) with (Z.min lim maxPageSize)
    in Hitems.
  destruct (ascending_below_prefix key db k Hasc) as [post Hpost].
  exists (skipn (Z.to_nat (Z.min lim maxPageSize))
                (filter (fun row => key row <? k) db) ++ post).
  repeat split.
  - rewrite Hitems, app_assoc, firstn_skipn. exact Hpost.
  - apply Forall_forall. intros row Hin. rewrite Hitems in Hin.
    apply firstn_incl in Hin. apply filter_In in Hin.
    destruct Hin as [_ Hlt]. now apply Z.ltb_lt.
  - exact Hitems.
Qed.

End CursorPagerEdges.

Lemma backward_page_starts_collection_witness :
  exists rest,
    Sample.users = Sample.users_of [1; 2; 3; 4; 5]%Z ++ rest
    /\ Forall (fun row => (Sample.user_id row < 20)%Z)
              (Sample.users_of [1; 2; 3; 4; 5]%Z)
    /\ Sample.users_of [1; 2; 3; 4; 5]%Z
       = firstn (Z.to_nat (Z.min 5 100))
                (filter (fun row => (Sample.user_id row <? 20)%Z)
                        Sample.users).
Proof.
  apply (backward_page_starts_collection 100 Sample.user_id Sample.users 20
           (str_lit "MjA=") 5 "backward"
           (Sample.users_of [1; 2; 3; 4; 5]%Z)
           (Some (str_lit "NQ==")) (Some (str_lit "MQ=="))).
  - unfold Storage.ascending.
    repeat (apply SSorted_cons;
            [|repeat (apply Forall_cons; [cbn; lia|]); apply Forall_nil]).
    apply SSorted_nil.
  - lia.
  - lia.
  - discriminate.
  - reflexivity.
  - reflexivity.
Defined.

Lemma total_pages_exact_witness :
  exists r,
    OffsetPagination.create_pagination_response (@nil Sample.User) 25 3 10
    = Ok r
    /\ OffsetPagination.data r = []
    /\ OffsetPagination.total_items (OffsetPagination.pagination r) = 25%Z
    /\ ((OffsetPagination.total_pages (OffsetPagination.pagination r) - 1)
          * 10 < 25
        <= OffsetPagination.total_pages (OffsetPagination.pagination r)
           * 10)%Z
    /\ OffsetPagination.has_next (OffsetPagination.pagination r)
       = (3 <? OffsetPagination.total_pages (OffsetPagination.pagination r))%Z
    /\ OffsetPagination.has_previous (OffsetPagination.pagination r)
       = (3 >? 1)%Z
    /\ (OffsetPagination.has_next (OffsetPagination.pagination r) = true
        <-> (3 * 10 < 25)%Z).
Proof.
  apply (total_pages_exact (@nil Sample.User) 25 3 10); lia.
Defined.

Lemma list_users_agrees_witness :
  OffsetPagination.list_users Sample.users Sample.all_users
    {| OffsetPagination.page := 2; OffsetPagination.limit := 10 |}
  = OffsetPagination.create_pagination_response
      (fst (OffsetPagination.offset_paginate Sample.users Sample.all_users
              {| OffsetPagination.page := 2; OffsetPagination.limit := 10 |}
              None))
      (snd (OffsetPagination.offset_paginate Sample.users Sample.all_users
              {| OffsetPagination.page := 2; OffsetPagination.limit := 10 |}
              None))
      2 10.
Proof.
  apply (list_users_agrees Sample.users Sample.all_users
           {| OffsetPagination.page := 2; OffsetPagination.limit := 10 |}
           100).
  reflexivity.
Defined.

(** * Pages behind a cursor that reads as an integer, and the cursors
    handed out over an integer key *)

Section CursorPagerInteger.
Import Storage Codec CursorPagination.
Local Open Scope Z_scope.

Context {Item : Type}.
Variable key : Item -> Z.
Variable maxPageSize : Z.

Implicit Types (db : Session Item) (query : select Item)
         (direction : string).

(** With a cursor that decodes to the decimal text of [k], the statement
    gets one more criterion: the key above [k], or below it. *)
Lemma filtered_int_cursor query c k lim direction :
  decode_cursor c = str_of_int k ->
  filtered query (int_column key) {| cursor := Some c; limit := lim |}
           direction
  = where_ query
      (Criterion (int_column key)
                 (if String.eqb direction "forward" then Gt else Lt)
                 (str_of_int k)).
Proof.
  intro Hd. pose proof (str_of_int_nonempty k) as Hk.
  unfold filtered, cursor_value. cbn [cursor truthy_opt_str].
  destruct c as [|a c].
  - exfalso. apply Hk. rewrite <- Hd. reflexivity.
  - cbn [truthy_str option_map]. rewrite Hd.
    destruct (str_of_int k); [contradiction|]. cbn [truthy_str].
    destruct (String.eqb direction "forward"); reflexivity.
Qed.

Lemma holds_int_cursor direction k row :
  holds (Criterion (int_column key)
                   (if String.eqb direction "forward" then Gt else Lt)
                   (str_of_int k)) row
  = if String.eqb direction "forward" then key row >? k else key row <? k.
Proof.
  destruct (String.eqb direction "forward");
    [apply holds_int_gt | apply holds_int_lt]; apply parse_int_str_of_int.
Qed.



(** X9: with a cursor that decodes to the decimal text of an integer
    [k] (as the cursors the pager makes over an integer key do), every
    item of the page is a row of the collection whose key lies strictly
    beyond [k]: above it when the direction is ["forward"], below it for
    any other direction string. *)
Theorem page_items_beyond_cursor db query c k lim direction
        items next prev :
  decode_cursor c = str_of_int k ->
  cursor_paginate maxPageSize db query (int_column key)
                  {| cursor := Some c; limit := lim |} direction
  = Ok (items, next, prev) ->
  Forall (fun item =>
            In item db
            /\ if String.eqb direction "forward"
               then k < key item else key item < k)
         items.
Proof.
  intros Hd Hr. apply cursor_paginate_inv in Hr. destruct Hr as [-> _].
  apply Forall_forall. intros item Hin.
  apply trimmed_incl in Hin. unfold fetched in Hin.
  apply execute_in in Hin. destruct Hin as [Hdb Hw]. split; [exact Hdb|].
  unfold statement in Hw. rewrite (filtered_int_cursor _ _ _ _ _ Hd) in Hw.
  cbn [limit_ where_ sel_where] in Hw.
  rewrite forallb_app in Hw. apply andb_prop in Hw. destruct Hw as [_ Hc].
  cbn [forallb] in Hc. rewrite andb_true_r, holds_int_cursor in Hc.
  destruct (String.eqb direction "forward");
    [apply Z.gtb_gt in Hc | apply Z.ltb_lt in Hc]; lia.
Qed.


(** X18: over an integer key column with 64-bit keys, as an INTEGER
    column holds them, and for an effective limit from 0 up that fits a
    64-bit LIMIT, [cursor_paginate] returns a page whatever the cursor
    and the direction: no key fails to encode.  The items are rows of
    the collection, and each cursor returned decodes to the decimal text
    of the key of a row of the page ([next_cursor] of the last one,
    [previous_cursor] of the first), so that it can be followed. *)
Theorem cursor_paginate_returns_on_integer_key db query params direction :
  Forall (fun row => - 2 ^ 63 <= key row < 2 ^ 63) db ->
  0 <= effective_limit maxPageSize params < 2 ^ 63 - 1 ->
  exists items next prev,
    cursor_paginate maxPageSize db query (int_column key) params direction
    = Ok (items, next, prev)
    /\ incl items db
    /\ (forall c, next = Some c ->
          exists init lst, items = init ++ [lst]
                           /\ decode_cursor c = str_of_int (key lst))
    /\ (forall c, prev = Some c ->
          exists first rest, items = first :: rest
                             /\ decode_cursor c = str_of_int (key first)).
Proof.
  intros _ _.
  destruct (cursor_paginate_returns maxPageSize db query (int_column key)
                                    params direction)
    as [[[items next] prev] Hr].
  { intros row _. apply str_of_int_encodable. }
  exists items, next, prev. split; [exact Hr|].
  apply cursor_paginate_inv in Hr. destruct Hr as [Hitems Hc].
  split.
  - rewrite Hitems. intros row Hin. apply trimmed_incl in Hin.
    now apply execute_incl in Hin.
  - apply cursors_spec in Hc. destruct Hc as [_ [Hn [_ [Hp _]]]]. split.
    + intros c Hc. destruct (Hn c Hc) as (init & lst & E & He).
      exists init, lst. split; [exact E|].
      destruct (encode_cursor_inv _ _ He) as (raw & _ & _ & Hd). exact Hd.
    + intros c Hc. destruct (Hp c Hc) as (first & rest & E & He).
      exists first, rest. split; [exact E|].
      destruct (encode_cursor_inv _ _ He) as (raw & _ & _ & Hd). exact Hd.
Qed.

End CursorPagerInteger.

Lemma page_items_beyond_cursor_witness :
  Forall (fun item =>
            In item Sample.users
            /\ if String.eqb "backward" "forward"
               then (20 < Sample.user_id item)%Z
               else (Sample.user_id item < 20)%Z)
         (Sample.users_of [1; 2; 3; 4; 5]%Z).
Proof.
  apply (page_items_beyond_cursor Sample.user_id 100 Sample.users
           Sample.all_users (str_lit "MjA=") 20 5 "backward"
           (Sample.users_of [1; 2; 3; 4; 5]%Z)
           (Some (str_lit "NQ==")) (Some (str_lit "MQ==")));
    reflexivity.
Defined.


Lemma cursor_paginate_returns_on_integer_key_witness :
  exists items next prev,
    CursorPagination.cursor_paginate 100 Sample.users Sample.all_users
      (Storage.int_column Sample.user_id)
      {| CursorPagination.cursor := Some (str_lit "MTA=");
         CursorPagination.limit := 10 |} "forward"
    = Ok (items, next, prev)
    /\ incl items Sample.users.
Proof.
  destruct (cursor_paginate_returns_on_integer_key Sample.user_id 100
              Sample.users Sample.all_users
              {| CursorPagination.cursor := Some (str_lit "MTA=");
                 CursorPagination.limit := 10 |} "forward")
    as (items & next & prev & Hr & Hincl & _).
  - let l := eval vm_compute in Sample.users in change Sample.users with l.
    repeat (apply Forall_cons; [cbn; lia|]).
    apply Forall_nil.
  - vm_compute. split; [discriminate | reflexivity].
  - exists items, next, prev. split; [exact Hr | exact Hincl].
Defined.
